(** * Bybit historical data downloader: model and verification

    Shallow embedding of
    [bybit_data_downloader/historical/ByBitHistoricalDataDownloader.py]:
    the date-range splitter [_split_date_range], the single-file fetcher
    [_download_file] and the parallel part of [download_data].

    The Python code talks to three outside parties: the [datetime] library,
    the local file system ([pathlib]) and the HTTP client ([httpx]).  Each of
    them is modelled by a small explicit interface whose failure modes are the
    ones the code can observe (an exception, a size, a status).  The code of
    the repository itself is translated statement by statement on top of
    these interfaces, in an exception-and-state monad.

    Modelling choices:
    - a date is its day number; parsing and printing of dates are not part of
      the model;
    - a [file_info] dictionary has its keys ['url'] and ['filename'], and its
      ['size'], when present, is a number;
    - a file is known by its size only; paths are compared as strings;
    - the worker threads are not interleaved: the fetches of a batch run one
      after the other, in the order in which they complete, and every such
      order is considered. *)

From stdpp Require Import gmap strings list sorting.
From Equations Require Import Equations.

Open Scope Z_scope.

(* ===================================================================== *)
(** ** Exceptions and results                                             *)
(* ===================================================================== *)

(** The Python exceptions that the modelled code can see.  All of them are
    subclasses of [Exception], so a bare [except Exception] catches each. *)
Inductive Exn : Type :=
| OverflowError                 (* datetime arithmetic left [datetime.min, datetime.max] *)
| ValueError                    (* ThreadPoolExecutor(max_workers <= 0) *)
| RequestError                  (* httpx: connection, timeout, DNS, read error *)
| HTTPStatusError (status : Z)  (* httpx: raise_for_status on a non-2xx answer *)
| OSError                       (* permission denied, disk full, is a directory... *)
| FileNotFoundError.            (* stat or unlink on a missing path *)

(** Outcome of a Python call: a value, or a raised exception. *)
Inductive Res (A : Type) : Type :=
| Ok (a : A)
| Raise (e : Exn).
Arguments Ok {A} a.
Arguments Raise {A} e.

#[global] Instance Exn_eq_dec : EqDecision Exn.
Proof. solve_decision. Defined.

#[global] Instance Res_eq_dec `{EqDecision A} : EqDecision (Res A).
Proof. solve_decision. Defined.

Definition is_Ok {A} (r : Res A) : bool :=
  match r with Ok _ => true | Raise _ => false end.

(* ===================================================================== *)
(** ** Dates                                                              *)
(* ===================================================================== *)

(** A [datetime] at midnight is represented by its proleptic Gregorian
    ordinal ([datetime.toordinal]): day 1 is 0001-01-01 and [MAXORDINAL] is
    9999-12-31.  [strptime] and [strftime] sit at the boundary of
    [_split_date_range] and convert between these values and text. *)
Definition MINORDINAL : Z := 1.
Definition MAXORDINAL : Z := 3652059.

Definition valid_date (d : Z) : Prop := MINORDINAL <= d <= MAXORDINAL.

(** Calendar arithmetic of CPython's [datetime] module, used to name
    concrete dates by year, month and day. *)
Definition _is_leap (year : Z) : bool :=
  (year mod 4 =? 0) && (negb (year mod 100 =? 0) || (year mod 400 =? 0)).

Definition _days_before_year (year : Z) : Z :=
  let y := year - 1 in y * 365 + y / 4 - y / 100 + y / 400.

Definition _days_in_month (year month : Z) : Z :=
  if (month =? 2) && _is_leap year then 29
  else nth (Z.to_nat month) [-1; 31; 28; 31; 30; 31; 30; 31; 31; 30; 31; 30; 31] (-1).

Definition _days_before_month (year month : Z) : Z :=
  nth (Z.to_nat month) [-1; 0; 31; 59; 90; 120; 151; 181; 212; 243; 273; 304; 334] (-1)
  + (if (2 <? month) && _is_leap year then 1 else 0).

Definition _ymd2ord (year month day : Z) : Z :=
  _days_before_year year + _days_before_month year month + day.

(** [datetime(year, month, day)]: [ValueError] outside the calendar. *)
Definition datetime (year month day : Z) : Res Z :=
  if (1 <=? year) && (year <=? 9999) && (1 <=? month) && (month <=? 12)
     && (1 <=? day) && (day <=? _days_in_month year month)
  then Ok (_ymd2ord year month day)
  else Raise ValueError.

(** [d + timedelta(days=n)]: [OverflowError] ("date value out of range")
    when the result is not a representable date. *)
Definition add_days (d n : Z) : Res Z :=
  if (MINORDINAL <=? d + n) && (d + n <=? MAXORDINAL) then Ok (d + n)
  else Raise OverflowError.

Definition inspect {A} (a : A) : {b : A | a = b} := exist _ a eq_refl.

(** The [while current_start <= end] loop of [_split_date_range].  It
    terminates because every round moves [current_start] forward. *)
Equations split_loop (current_start end_ : Z) (chunks : list (Z * Z))
  : Res (list (Z * Z)) by wf (Z.to_nat (end_ - current_start + 1)) lt :=
split_loop current_start end_ chunks with Z_le_dec current_start end_ := {
  | right _ => Ok chunks
  | left _ with inspect (add_days current_start 6) := {
    | exist _ (Raise e) _ => Raise e
    | exist _ (Ok t) Ht with inspect (add_days (Z.min t end_) 1) := {
      | exist _ (Raise e) _ => Raise e
      | exist _ (Ok next) Hn =>
          split_loop next end_ (chunks ++ [(current_start, Z.min t end_)]) } } }.
Next Obligation.
  unfold add_days in Ht, Hn.
  destruct (_ && _) in Ht; [|discriminate].
  destruct (_ && _) in Hn; [|discriminate].
  injection Ht as <-. injection Hn as <-. lia.
Qed.

(** [_split_date_range], between parsing and printing of the dates. *)
Definition _split_date_range (start_date end_date : Z) : Res (list (Z * Z)) :=
  split_loop start_date end_date [].

(** The days of a window, first to last. *)
Definition window_days (c : Z * Z) : list Z :=
  map (fun i => fst c + Z.of_nat i) (seq 0 (Z.to_nat (snd c - fst c + 1))).

(** Consecutive windows: each starts the day after the previous one ends. *)
Fixpoint contiguous (chunks : list (Z * Z)) : Prop :=
  match chunks with
  | c1 :: ((c2 :: _) as rest) => fst c2 = snd c1 + 1 /\ contiguous rest
  | _ => True
  end.

(** [cs] cuts the days from [cur] to [e] into windows: nothing when the
    range is empty; otherwise the first window starts at [cur] and the last
    one ends at [e]; every window is well formed and spans at most seven
    days; the windows follow each other without gap, in chronological
    order; and their days, put end to end, are the days of the range. *)
Definition windows_ok (cur e : Z) (cs : list (Z * Z)) : Prop :=
  (e < cur -> cs = []) /\
  (cur <= e -> fst <$> head cs = Some cur /\ snd <$> last cs = Some e) /\
  Forall (fun c => cur <= fst c /\ fst c <= snd c <= fst c + 6) cs /\
  contiguous cs /\
  StronglySorted (fun c1 c2 => snd c1 < fst c2) cs /\
  concat (map window_days cs) = window_days (cur, e).

(** The dates the loop computes stay representable: [end_] is not the
    last day of the calendar (the loop steps one day past it), and neither is
    any of the six days after the start of the last window. *)
Definition range_fits (start end_ : Z) : Prop :=
  end_ < MAXORDINAL /\ start + 7 * ((end_ - start) / 7) + 6 <= MAXORDINAL.

(* ===================================================================== *)
(** ** The outside world                                                  *)
(* ===================================================================== *)

(** One entry of the list returned by the list-files endpoint: the keys
    ['url'], ['filename'] and the optional ['size'] of the [file_info]
    dictionary. *)
Record FileInfo : Type := mkFileInfo {
  fi_url : string;
  fi_filename : string;
  fi_size : option Z
}.

#[global] Instance FileInfo_eq_dec : EqDecision FileInfo.
Proof. solve_decision. Defined.

(** How the body of a 2xx answer ends: all chunks arrive, or an exception
    interrupts the copy after the listed chunks have been written (a read
    timeout of the stream, or [f.write] failing on a full disk). *)
Inductive StreamEnd : Type :=
| Complete
| Aborted (e : Exn).

(** What the server does with one GET. *)
Inductive Response : Type :=
| NoResponse
| HttpResponse (status : Z) (chunks : list N) (ending : StreamEnd).

(** Observable effects, in the order in which they happen: the calls that
    reach the file system, the network and the clock, and the lines of the
    log. *)
Inductive Event : Type :=
| EvMkdir (path : string)        (* the parent directory of [path] is ensured *)
| EvGet (url : string)           (* client.stream('GET', url) *)
| EvUnlink (path : string)       (* [path] is removed *)
| EvSleep (seconds : Z)          (* time.sleep(seconds) *)
| LogExists (filename : string)  (* "File already exists: ..." *)
| LogSizeMismatch (filename : string) (expected : Z) (actual : N)
                                 (* "Size mismatch for ...: expected ..., got ..." *)
| LogDownloaded (filename : string) (actual : N)
                                 (* "Downloaded: ... (... bytes)" *)
| LogAttemptFailed (attempt : nat) (filename : string) (e : Exn)
                                 (* "Download attempt ... failed for ...: ..." *)
| LogGiveUp (filename : string) (attempts : nat)
                                 (* "Failed to download ... after ... attempts" *)
| LogStart (count : nat)         (* "Starting parallel download of ... files..." *)
| LogTaskFailed (filename : string) (e : Exn)
                                 (* "Download task failed for ...: ..." *)
| LogCompleted (successful total : nat).
                                 (* "Download completed: .../... files successful" *)

#[global] Instance Event_eq_dec : EqDecision Event.
Proof. solve_decision. Defined.

(** The file system as the fetcher sees it, the scripted behaviour of the
    remote server, and the effects performed so far.
    - [fs_files]: the paths that exist, with their [st_size];
    - [fs_nomkdir]: target paths whose parent directory cannot be created;
    - [fs_nowrite]: paths that [open(path, 'wb')] refuses;
    - [fs_nodelete]: paths that [unlink] refuses;
    - [net]: for each URL, the answers to its successive GET requests (an
      exhausted or missing script means the server is unreachable). *)
Record World : Type := mkWorld {
  fs_files : gmap string N;
  fs_nomkdir : gset string;
  fs_nowrite : gset string;
  fs_nodelete : gset string;
  net : gmap string (list Response);
  trace : list Event
}.

Definition set_files (f : gmap string N -> gmap string N) (w : World) : World :=
  mkWorld (f (fs_files w)) (fs_nomkdir w) (fs_nowrite w) (fs_nodelete w)
          (net w) (trace w).

Definition set_net (f : gmap string (list Response) -> gmap string (list Response))
    (w : World) : World :=
  mkWorld (fs_files w) (fs_nomkdir w) (fs_nowrite w) (fs_nodelete w)
          (f (net w)) (trace w).

Definition add_event (e : Event) (w : World) : World :=
  mkWorld (fs_files w) (fs_nomkdir w) (fs_nowrite w) (fs_nodelete w)
          (net w) (trace w ++ [e]).

(** Computations that read and change the world and may raise. *)
Definition M (A : Type) : Type := World -> Res A * World.

Definition ret {A} (a : A) : M A := fun w => (Ok a, w).

Definition raise {A} (e : Exn) : M A := fun w => (Raise e, w).

Definition bind {A B} (m : M A) (k : A -> M B) : M B :=
  fun w => match m w with
           | (Ok a, w') => k a w'
           | (Raise e, w') => (Raise e, w')
           end.

(** [try: m except Exception as e: handler e] *)
Definition try_except {A} (m : M A) (handler : Exn -> M A) : M A :=
  fun w => match m w with
           | (Ok a, w') => (Ok a, w')
           | (Raise e, w') => handler e w'
           end.

Declare Scope py_scope.
Delimit Scope py_scope with py.
Notation "'let*' x := m 'in' k" := (bind m (fun x => k))
  (at level 10, x name, m at level 100, k at level 200) : py_scope.
Notation "m >> k" := (bind m (fun _ => k))
  (at level 65, right associativity) : py_scope.
Open Scope py_scope.

Definition emit (e : Event) : M unit := fun w => (Ok tt, add_event e w).

Definition when (b : bool) (m : M unit) : M unit := if b then m else ret tt.

(* ===================================================================== *)
(** ** File system and network primitives                                 *)
(* ===================================================================== *)

(** [Path(output_dir) / filename]; an empty [filename] names the directory
    itself. *)
Definition path_join (output_dir filename : string) : string :=
  if decide (filename = "") then output_dir
  else (output_dir +:+ "/" +:+ filename)%string.

(** [file_path.exists()] *)
Definition path_exists (p : string) : M bool :=
  fun w => (Ok (bool_decide (is_Some (fs_files w !! p))), w).

(** [file_path.stat().st_size] *)
Definition stat_size (p : string) : M N :=
  fun w => match fs_files w !! p with
           | Some n => (Ok n, w)
           | None => (Raise FileNotFoundError, w)
           end.

(** [file_path.parent.mkdir(parents=True, exist_ok=True)] *)
Definition mkdir_parent (p : string) : M unit :=
  fun w => if decide (p ∈ fs_nomkdir w) then (Raise OSError, w)
           else (Ok tt, add_event (EvMkdir p) w).

(** [file_path.unlink()] *)
Definition unlink (p : string) : M unit :=
  fun w => match fs_files w !! p with
           | None => (Raise FileNotFoundError, w)
           | Some _ =>
               if decide (p ∈ fs_nodelete w) then (Raise OSError, w)
               else (Ok tt, add_event (EvUnlink p) (set_files (delete p) w))
           end.

(** [open(file_path, 'wb')]: creates the file or truncates it. *)
Definition open_wb (p : string) : M unit :=
  fun w => if decide (p ∈ fs_nowrite w) then (Raise OSError, w)
           else (Ok tt, set_files <[p := 0%N]> w).

(** [f.write(chunk)] for a chunk of [n] bytes. *)
Definition write_chunk (p : string) (n : N) : M unit :=
  fun w => (Ok tt, set_files <[p := (default 0 (fs_files w !! p) + n)%N]> w).

(** [for chunk in response.iter_bytes(chunk_size=8192): f.write(chunk)] *)
Fixpoint write_chunks (p : string) (chunks : list N) : M unit :=
  match chunks with
  | [] => ret tt
  | n :: rest => write_chunk p n >> write_chunks p rest
  end.

(** [client.stream('GET', url)]: the request is sent and the next scripted
    answer of the server is consumed. *)
Definition client_stream (url : string) : M (Z * list N * StreamEnd) :=
  fun w =>
    let w1 := add_event (EvGet url) w in
    match net w !! url with
    | Some (HttpResponse status chunks ending :: rest) =>
        (Ok (status, chunks, ending), set_net <[url := rest]> w1)
    | Some (NoResponse :: rest) => (Raise RequestError, set_net <[url := rest]> w1)
    | _ => (Raise RequestError, w1)
    end.

(** [response.is_success] *)
Definition is_success (status : Z) : bool :=
  (200 <=? status) && (status <? 300).

(** [response.raise_for_status()] *)
Definition raise_for_status (status : Z) : M unit :=
  if is_success status then ret tt
  else raise (HTTPStatusError status).

(** [time.sleep(seconds)] *)
Definition sleep (seconds : Z) : M unit := emit (EvSleep seconds).

(* ===================================================================== *)
(** ** [_download_file]                                                   *)
(* ===================================================================== *)

Definition max_retries : nat := 3.

(** [int(file_info.get('size', 0))] *)
Definition expected_size_of (file_info : FileInfo) : Z :=
  default 0 (fi_size file_info).

(** The [with httpx.Client ... f.write(chunk)] block of one attempt. *)
Definition stream_to_file (url file_path : string) : M unit :=
  let* resp := client_stream url in
  let '(status, chunks, ending) := resp in
  raise_for_status status >>
  open_wb file_path >>
  write_chunks file_path chunks >>
  match ending with
  | Complete => ret tt
  | Aborted e => raise e
  end.

(** Body of the [try] of one attempt.  [true] stands for [return True],
    [false] for [continue]. *)
Definition attempt_body (file_info : FileInfo) (file_path : string) : M bool :=
  stream_to_file (fi_url file_info) file_path >>
  let expected_size := expected_size_of file_info in
  let* actual_size := stat_size file_path in
  if (0 <? expected_size) && negb (Z.of_N actual_size =? expected_size) then
    emit (LogSizeMismatch (fi_filename file_info) expected_size actual_size) >>
    unlink file_path >>
    ret false
  else
    emit (LogDownloaded (fi_filename file_info) actual_size) >>
    ret true.

(** The [except Exception as e] handler of one attempt; the loop then goes
    on with the next attempt. *)
Definition attempt_handler (file_info : FileInfo) (file_path : string)
    (attempt : nat) (e : Exn) : M bool :=
  emit (LogAttemptFailed (attempt + 1) (fi_filename file_info) e) >>
  (let* present := path_exists file_path in when present (unlink file_path)) >>
  when (attempt <? max_retries - 1)%nat (sleep (2 ^ Z.of_nat attempt)) >>
  ret false.

(** One round of [for attempt in range(max_retries)]. *)
Definition attempt_once (file_info : FileInfo) (file_path : string)
    (attempt : nat) : M bool :=
  try_except (attempt_body file_info file_path)
             (attempt_handler file_info file_path attempt).

(** The [for] loop over the remaining attempt indices, and the two
    statements after it. *)
Fixpoint retry_loop (file_info : FileInfo) (file_path : string)
    (attempts : list nat) : M bool :=
  match attempts with
  | [] =>
      emit (LogGiveUp (fi_filename file_info) max_retries) >>
      ret false
  | attempt :: rest =>
      let* done := attempt_once file_info file_path attempt in
      if done then ret true else retry_loop file_info file_path rest
  end.

(** The test of "Skip if file already exists and has correct size". *)
Definition already_complete (file_info : FileInfo) (file_path : string) : M bool :=
  let* present := path_exists file_path in
  if present then
    let expected_size := expected_size_of file_info in
    if 0 <? expected_size then
      let* on_disk := stat_size file_path in
      ret (Z.of_N on_disk =? expected_size)
    else ret false
  else ret false.

Definition _download_file (file_info : FileInfo) (output_dir : string) : M bool :=
  let file_path := path_join output_dir (fi_filename file_info) in
  let* skip := already_complete file_info file_path in
  if skip then
    emit (LogExists (fi_filename file_info)) >>
    ret true
  else
    mkdir_parent file_path >>
    retry_loop file_info file_path (seq 0 max_retries).

(* ===================================================================== *)
(** ** The parallel part of [download_data]                               *)
(* ===================================================================== *)

(** The statistics dictionary returned by [download_data]. *)
Record Stats : Type := mkStats {
  total_files : nat;
  downloaded : nat;
  failed : nat
}.

(** A finished future: the [file_info] it was submitted for (the value of
    [future_to_file]) and what [future.result()] does. *)
Definition Future : Type := FileInfo * Res bool.

(** [as_completed]: the futures come back in an order the code does not
    control.  The order is driven by a list of choices: at each step the
    choice, reduced modulo the number of pending tasks, names the task that
    finishes next.  Every list of choices is a legal schedule. *)
Fixpoint completion_order {A} (fuel : nat) (pending : list A) (choices : list nat)
    : list A :=
  match fuel with
  | O => []
  | S fuel' =>
      let k := (hd 0%nat choices `mod` length pending)%nat in
      match pending !! k with
      | Some x => x :: completion_order fuel' (delete k pending) (tl choices)
      | None => []
      end
  end.

Definition as_completed {A} (submitted : list A) (choices : list nat) : list A :=
  completion_order (length submitted) submitted choices.

(** The worker pool.  A worker runs [_download_file] for its task and
    stores the returned value or the raised exception in the future; an
    exception never leaves the worker.  Each fetch works on its own target
    path, so the fetches are taken one after the other, in the order in
    which they finish. *)
Fixpoint run_tasks (tasks : list FileInfo) (output_path : string) (w : World)
    : list Future * World :=
  match tasks with
  | [] => ([], w)
  | file_info :: rest =>
      let '(r, w1) := _download_file file_info output_path w in
      let '(futures, w2) := run_tasks rest output_path w1 in
      ((file_info, r) :: futures, w2)
  end.

(** The loop [for future in as_completed(future_to_file)]. *)
Fixpoint process_completed (futures : list Future) (successful failed : nat)
    : M (nat * nat) :=
  match futures with
  | [] => ret (successful, failed)
  | (file_info, r) :: rest =>
      match r with
      | Ok true => process_completed rest (S successful) failed
      | Ok false => process_completed rest successful (S failed)
      | Raise e =>
          emit (LogTaskFailed (fi_filename file_info) e) >>
          process_completed rest successful (S failed)
      end
  end.

(** The futures of one run of the pool. *)
Definition pool_futures (all_files : list FileInfo) (output_path : string)
    (choices : list nat) (w : World) : list Future :=
  fst (run_tasks (as_completed all_files choices) output_path
         (add_event (LogStart (length all_files)) w)).

(** [download_data] from "Download files in parallel using
    ThreadPoolExecutor" to its [return stats]: [all_files] is the list the
    first half of the function has collected, [output_path] the directory it
    has created, [parallel_downloads] the attribute of the downloader. *)
Definition download_data_parallel (parallel_downloads : Z)
    (all_files : list FileInfo) (output_path : string) (choices : list nat)
    : M Stats :=
  emit (LogStart (length all_files)) >>
  (if parallel_downloads <=? 0 then raise ValueError else ret tt) >>
  let* futures := (fun w =>
      let '(futures, w') := run_tasks (as_completed all_files choices) output_path w in
      (Ok futures, w')) in
  let* counts := process_completed futures 0 0 in
  let '(successful, failed) := counts in
  let stats := mkStats (length all_files) successful failed in
  emit (LogCompleted successful (length all_files)) >>
  ret stats.

(* ===================================================================== *)
(** ** Observations on traces and futures                                 *)
(* ===================================================================== *)

Definition is_get (url : string) (e : Event) : bool :=
  bool_decide (e = EvGet url).

Definition is_any_get (e : Event) : bool :=
  match e with EvGet _ => true | _ => false end.

Definition is_sleep (e : Event) : bool :=
  match e with EvSleep _ => true | _ => false end.

(** Number of GET requests in a list of events. *)
Definition network_attempts (events : list Event) : nat :=
  length (filter (fun e => is_any_get e = true) events).

Definition succeeded (f : Future) : bool :=
  match snd f with Ok true => true | _ => false end.

Definition count_succeeded (futures : list Future) : nat :=
  length (filter (fun f => succeeded f = true) futures).

Definition count_failed (futures : list Future) : nat :=
  length (filter (fun f => succeeded f = false) futures).

(** An empty world: no file, no restriction, no reachable server. *)
Definition empty_world : World := mkWorld ∅ ∅ ∅ ∅ ∅ [].

(** The answer the server will give to the next GET of [url]. *)
Definition next_response (url : string) (w : World) : Response :=
  match net w !! url with
  | Some (r :: _) => r
  | _ => NoResponse
  end.

(** The world once a GET of [url] has been sent and answered. *)
Definition after_get (url : string) (w : World) : World :=
  set_net (fun m => match m !! url with
                    | Some (_ :: rest) => <[url := rest]> m
                    | _ => m
                    end)
          (add_event (EvGet url) w).

(** Length of a body delivered in chunks. *)
Definition body_bytes (chunks : list N) : N := foldr N.add 0%N chunks.

(** The world once [path] has been unlinked. *)
Definition removed (path : string) (w : World) : World :=
  add_event (EvUnlink path) (set_files (delete path) w).

(** The world after the backoff that follows failed attempt [attempt]. *)
Definition backed_off (attempt : nat) (w : World) : World :=
  if (attempt <? max_retries - 1)%nat
  then add_event (EvSleep (2 ^ Z.of_nat attempt)) w
  else w.

(** The skip test of [_download_file], as a condition on the world. *)
Definition file_complete (file_info : FileInfo) (path : string) (w : World) : bool :=
  match fs_files w !! path with
  | Some n => (0 <? expected_size_of file_info)
              && (Z.of_N n =? expected_size_of file_info)
  | None => false
  end.

(** The answers still to come for [url]. *)
Definition responses (url : string) (w : World) : list Response :=
  default [] (net w !! url).

(** Does an attempt that receives answer [r] fail?  It does on a transport
    error, on a status outside 2xx, when the target cannot be opened for
    writing, when the copy of the body is interrupted, and when the body is
    complete but its length is not the known positive expected size. *)
Definition attempt_fails (file_info : FileInfo) (path : string) (w : World)
    (r : Response) : bool :=
  match r with
  | NoResponse => true
  | HttpResponse status chunks ending =>
      negb (is_success status)
      || bool_decide (path ∈ fs_nowrite w)
      || match ending with
         | Aborted _ => true
         | Complete =>
             (0 <? expected_size_of file_info)
             && negb (Z.of_N (body_bytes chunks) =? expected_size_of file_info)
         end
  end.

(** [w'] differs from [w] at most in the file [path], in the script of
    [url] and by events added at the end of the trace. *)
Definition only_touches (path url : string) (w w' : World) : Prop :=
  fs_nomkdir w' = fs_nomkdir w /\
  fs_nowrite w' = fs_nowrite w /\
  fs_nodelete w' = fs_nodelete w /\
  (forall q, q <> path -> fs_files w' !! q = fs_files w !! q) /\
  (forall u, u <> url -> net w' !! u = net w !! u) /\
  exists evs, trace w' = trace w ++ evs.

(** Does answer [r] make the attempt fail at the size check, that is, a
    body copied completely whose length is not the known positive expected
    size? *)
Definition size_mismatch (file_info : FileInfo) (path : string) (w : World)
    (r : Response) : bool :=
  match r with
  | HttpResponse status chunks Complete =>
      is_success status
      && negb (bool_decide (path ∈ fs_nowrite w))
      && (0 <? expected_size_of file_info)
      && negb (Z.of_N (body_bytes chunks) =? expected_size_of file_info)
  | _ => false
  end.

(** The sleeps in a list of events. *)
Definition sleeps (events : list Event) : list Z :=
  omap (fun e => match e with EvSleep s => Some s | _ => None end) events.

(** The target of [file_info] is on disk with the known, positive expected
    size. *)
Definition already_on_disk (file_info : FileInfo) (output_dir : string)
    (w : World) : Prop :=
  exists n, fs_files w !! path_join output_dir (fi_filename file_info) = Some n /\
            0 < expected_size_of file_info /\
            Z.of_N n = expected_size_of file_info.

(** What a fetch of [path] from [url] can see of the world: its own file,
    the three permissions of its path and the script of its URL. *)
Definition view (path url : string) (w : World)
    : option N * bool * bool * bool * option (list Response) :=
  (fs_files w !! path,
   bool_decide (path ∈ fs_nomkdir w),
   bool_decide (path ∈ fs_nowrite w),
   bool_decide (path ∈ fs_nodelete w),
   net w !! url).

Definition target_of (output_dir : string) (file_info : FileInfo) : string :=
  path_join output_dir (fi_filename file_info).

(** The events that [w'] has added to the trace of [w]. *)
Definition events_since (w w' : World) : list Event :=
  drop (length (trace w)) (trace w').

(** The events of the fetch of [file_info] when it runs alone from [w]. *)
Definition solo_events (file_info : FileInfo) (output_dir : string) (w : World)
    : list Event :=
  events_since w (snd (_download_file file_info output_dir w)).

(** The sleep, if any, between failed attempt [attempt], which received
    answer [r], and the next round of the loop. *)
Definition backoff_after (file_info : FileInfo) (path : string) (w : World)
    (attempt : nat) (r : Response) : list Z :=
  if size_mismatch file_info path w r then []
  else if (attempt <? max_retries - 1)%nat then [2 ^ Z.of_nat attempt]
  else [].


(* ===================================================================== *)
(** ** Sample inputs                                                      *)
(* ===================================================================== *)

Definition sample_dir : string := "data/spot/trade/BTCUSDT".
Definition sample_name : string := "BTCUSDT2025-07-01.csv.gz".
Definition sample_url : string := "https://quote.example/BTCUSDT2025-07-01.csv.gz".

(** A daily archive of ten bytes. *)
Definition sample_file : FileInfo := mkFileInfo sample_url sample_name (Some 10).
Definition sample_target : string := target_of sample_dir sample_file.

Definition other_url : string := "https://quote.example/BTCUSDT2025-07-02.csv.gz".
Definition other_file : FileInfo :=
  mkFileInfo other_url "BTCUSDT2025-07-02.csv.gz" (Some 4).
Definition other_target : string := target_of sample_dir other_file.

(** The whole archive, and an answer that stops five bytes short. *)
Definition full_body : Response := HttpResponse 200 [8; 2]%N Complete.
Definition short_body : Response := HttpResponse 200 [3; 2]%N Complete.

(** An empty disk and a server that answers [sample_url] by [script]. *)
Definition serving (script : list Response) : World :=
  mkWorld ∅ ∅ ∅ ∅ {[ sample_url := script ]} [].



(** The server has both archives, but the parent directory of the second
    target cannot be created. *)
Definition world_second_blocked : World :=
  mkWorld ∅ {[ other_target ]} ∅ ∅
          {[ sample_url := [full_body];
             other_url := [HttpResponse 200 [4]%N Complete] ]} [].

(** The target may not be opened for writing. *)
Definition world_read_only : World :=
  mkWorld ∅ ∅ {[ sample_target ]} ∅
          {[ sample_url := [full_body; full_body; full_body] ]} [].


(** A descriptor without a file name: its target is the output directory
    itself, which exists, cannot be opened as a file and cannot be unlinked. *)
Definition nameless_file : FileInfo := mkFileInfo sample_url "" None.


(* ===================================================================== *)
(** ** Closed forms                                                       *)
(* ===================================================================== *)

(** Window number [i] (from 0) of the range [start .. end_]: seven days
    from [start + 7 * i], cut at [end_]. *)
Definition window_at (start end_ : Z) (i : nat) : Z * Z :=
  (start + 7 * Z.of_nat i, Z.min (start + 7 * Z.of_nat i + 6) end_).

(** Number of windows of a range with [start <= end_]. *)
Definition window_count (start end_ : Z) : nat :=
  Z.to_nat ((end_ - start) / 7 + 1).

(** The sleeps the handler of the retry loop can make at the given attempt
    indices: [2 ^ attempt] seconds after every attempt but the last. *)
Definition scheduled_sleeps (attempts : list nat) : list Z :=
  flat_map (fun attempt => if (attempt <? max_retries - 1)%nat
                           then [2 ^ Z.of_nat attempt] else [])
           attempts.

(* ===================================================================== *)
(** ** The exchange API and the first half of [download_data]             *)
(* ===================================================================== *)

(** What a call to the exchange API can raise.  Only [ApiRequestError] is
    an [httpx.RequestError]; all are subclasses of [Exception]. *)
Inductive ApiExn : Type :=
| ApiValueError                      (* a validator refused an argument *)
| ApiRequestError                    (* httpx.RequestError: no answer *)
| ApiHTTPStatusError (status : Z)    (* raise_for_status on a non-2xx answer *)
| ApiJSONDecodeError                 (* response.json() on a body that is not JSON *)
| ApiAttributeError                  (* .get on a JSON value that is not an object *)
| ApiError (message : string).       (* Exception("API Error: " + message) *)

Inductive ApiRes (A : Type) : Type :=
| AOk (a : A)
| ARaise (e : ApiExn).
Arguments AOk {A} a.
Arguments ARaise {A} e.

(** The ['result'] field of a JSON answer: absent; present but not an
    object (null, a list, a string, a number); or an object, with the list
    found under the key that the caller reads (['symbols'] or ['list']),
    [None] when the object has no such key.  The value under this key, when
    there is one, is taken to be a list. *)
Inductive ApiResult (A : Type) : Type :=
| NoResult
| ResultNotObject
| Result (entries : option (list A)).
Arguments NoResult {A}.
Arguments ResultNotObject {A}.
Arguments Result {A} entries.

(** The body of an answer: not JSON; a JSON value that is not an object; or
    a JSON object with its ['ret_code'] ([Some n] when it equals the number
    [n] for Python, [None] when it is absent or equals no integer), its
    ['ret_msg'] as it is formatted ([None] when absent) and its ['result']. *)
Inductive ApiBody (A : Type) : Type :=
| NotJson
| NotObject
| Json (ret_code : option Z) (ret_msg : option string) (result : ApiResult A).
Arguments NotJson {A}.
Arguments NotObject {A}.
Arguments Json {A} ret_code ret_msg result.

(** What the exchange does with one request. *)
Inductive ApiAnswer (A : Type) : Type :=
| Unreachable
| Reply (status : Z) (body : ApiBody A).
Arguments Unreachable {A}.
Arguments Reply {A} status body.

(** The query of the list-files endpoint. *)
Record ListFilesParams : Type := mkListFilesParams {
  bizType : string;
  productId : string;
  symbols : string;
  interval : string;
  periods : string;
  startDay : string;
  endDay : string
}.

#[global] Instance ListFilesParams_eq_dec : EqDecision ListFilesParams.
Proof. solve_decision. Defined.

(** What the first half of [download_data] and [fetch_symbols] lean on:
    - [strptime]: [datetime.strptime(text, '%Y-%m-%d')] as a day number,
      [None] when it raises [ValueError];
    - [strftime]: [date.strftime('%Y-%m-%d')];
    - [list_options], [list_files]: the answers of the two endpoints;
    - [blocked_dirs]: the directories that [mkdir] cannot create. *)
Record Services : Type := mkServices {
  strptime : string -> option Z;
  strftime : Z -> string;
  list_options : string -> string -> ApiAnswer string;
  list_files : ListFilesParams -> ApiAnswer FileInfo;
  blocked_dirs : gset string
}.

(** The requests and log lines of the code outside [_download_file] and the
    pool. *)
Inductive ApiEvent : Type :=
| EvListOptions (biz_type product_id : string)   (* GET .../list-options *)
| EvListFiles (params : ListFilesParams)         (* GET .../list-files *)
| EvMkdirOutput (path : string)                  (* output_path.mkdir(...) *)
| LogFetchedSymbols (count : nat) (biz_type product_id : string)
| LogFetchSymbolsFailed                          (* "Failed to fetch symbols: ..." *)
| LogFileListFailed                              (* "Failed to get file list: ..." *)
| LogStarting (symbol biz_type product_id start_date end_date : string)
| LogSplit (count : nat)                         (* "Split into ... date chunks" *)
| LogFound (count : nat) (chunk_start chunk_end : string)
| LogChunkFailed (chunk_start chunk_end : string) (e : ApiExn)
| LogNoFiles.                                    (* "No files found ..." *)

(** [data.get('result', {}).get(key, [])] *)
Definition result_entries {A : Type} (result : ApiResult A) : ApiRes (list A) :=
  match result with
  | NoResult => AOk []
  | ResultNotObject => ARaise ApiAttributeError
  | Result entries => AOk (default [] entries)
  end.

(** [_validate_biz_type] *)
Definition _validate_biz_type (biz_type : string) : Res unit :=
  if bool_decide (biz_type ∈ ["spot"; "contract"]) then Ok tt
  else Raise ValueError.

(** [_validate_product_id] *)
Definition _validate_product_id (product_id : string) : Res unit :=
  if bool_decide (product_id ∈ ["trade"; "orderbook"]) then Ok tt
  else Raise ValueError.

(** [_validate_date_format] *)
Definition _validate_date_format (sv : Services) (date_str : string) : Res unit :=
  match strptime sv date_str with
  | Some _ => Ok tt
  | None => Raise ValueError
  end.

(** [fetch_symbols] *)
Definition fetch_symbols (sv : Services) (biz_type product_id : string)
    : ApiRes (list string) * list ApiEvent :=
  match _validate_biz_type biz_type with
  | Raise _ => (ARaise ApiValueError, [])
  | Ok _ =>
  match _validate_product_id product_id with
  | Raise _ => (ARaise ApiValueError, [])
  | Ok _ =>
      let request := EvListOptions biz_type product_id in
      match list_options sv biz_type product_id with
      | Unreachable =>
          (ARaise ApiRequestError, [request; LogFetchSymbolsFailed])
      | Reply status body =>
          if is_success status then
            match body with
            | NotJson => (ARaise ApiJSONDecodeError, [request])
            | NotObject => (ARaise ApiAttributeError, [request])
            | Json ret_code ret_msg result =>
                if decide (ret_code = Some 0) then
                  match result_entries result with
                  | AOk symbols =>
                      (AOk symbols,
                       [request;
                        LogFetchedSymbols (length symbols) biz_type product_id])
                  | ARaise e => (ARaise e, [request])
                  end
                else
                  (ARaise (ApiError (default "Unknown error" ret_msg)), [request])
            end
          else (ARaise (ApiHTTPStatusError status), [request])
      end
  end end.

(** [_get_download_files] *)
Definition _get_download_files (sv : Services)
    (symbol start_date end_date biz_type product_id : string)
    : ApiRes (list FileInfo) * list ApiEvent :=
  let params :=
    mkListFilesParams biz_type product_id symbol "daily" "" start_date end_date in
  let request := EvListFiles params in
  match list_files sv params with
  | Unreachable => (ARaise ApiRequestError, [request; LogFileListFailed])
  | Reply status body =>
      if is_success status then
        match body with
        | NotJson => (ARaise ApiJSONDecodeError, [request])
        | NotObject => (ARaise ApiAttributeError, [request])
        | Json ret_code ret_msg result =>
            if decide (ret_code = Some 0) then (result_entries result, [request])
            else (ARaise (ApiError (default "Unknown error" ret_msg)), [request])
        end
      else (ARaise (ApiHTTPStatusError status), [request])
  end.

(** [_split_date_range] with the parsing of its arguments and the printing
    of its windows. *)
Definition split_date_range_text (sv : Services) (start_date end_date : string)
    : Res (list (string * string)) :=
  match strptime sv start_date, strptime sv end_date with
  | Some start, Some end_ =>
      match _split_date_range start end_ with
      | Ok chunks =>
          Ok (map (fun c => (strftime sv (fst c), strftime sv (snd c))) chunks)
      | Raise e => Raise e
      end
  | _, _ => Raise ValueError
  end.

(** The loop [for chunk_start, chunk_end in date_chunks] of [download_data]:
    the files of a window are appended to [all_files]; a window whose listing
    raises is logged and left out. *)
Fixpoint collect_files (sv : Services) (symbol biz_type product_id : string)
    (date_chunks : list (string * string)) (all_files : list FileInfo)
    : list FileInfo * list ApiEvent :=
  match date_chunks with
  | [] => (all_files, [])
  | (chunk_start, chunk_end) :: rest =>
      let '(r, evs) :=
        _get_download_files sv symbol chunk_start chunk_end biz_type product_id in
      match r with
      | AOk files =>
          let '(all_files', evs') :=
            collect_files sv symbol biz_type product_id rest (all_files ++ files) in
          (all_files', evs ++ LogFound (length files) chunk_start chunk_end :: evs')
      | ARaise e =>
          let '(all_files', evs') :=
            collect_files sv symbol biz_type product_id rest all_files in
          (all_files', evs ++ LogChunkFailed chunk_start chunk_end e :: evs')
      end
  end.

(** [Path(output_dir) / biz_type / product_id / symbol] *)
Definition output_path_of (output_dir biz_type product_id symbol : string) : string :=
  path_join (path_join (path_join output_dir biz_type) product_id) symbol.

(** [download_data].  The result and the world are those of the Python
    call; the events listed beside them are the requests and log lines of the
    first half of the function, all of which come before the events that the
    pool adds to the trace of the world. *)
Definition download_data (sv : Services) (parallel_downloads : Z)
    (symbol start_date end_date biz_type product_id output_dir : string)
    (choices : list nat) (w : World)
    : (Res Stats * World) * list ApiEvent :=
  match _validate_biz_type biz_type with
  | Raise e => ((Raise e, w), [])
  | Ok _ =>
  match _validate_product_id product_id with
  | Raise e => ((Raise e, w), [])
  | Ok _ =>
  match _validate_date_format sv start_date with
  | Raise e => ((Raise e, w), [])
  | Ok _ =>
  match _validate_date_format sv end_date with
  | Raise e => ((Raise e, w), [])
  | Ok _ =>
  match strptime sv start_date, strptime sv end_date with
  | Some start, Some end_ =>
      if end_ <? start then ((Raise ValueError, w), [])
      else
        let starting := LogStarting symbol biz_type product_id start_date end_date in
        match split_date_range_text sv start_date end_date with
        | Raise e => ((Raise e, w), [starting])
        | Ok date_chunks =>
            let '(all_files, evs) :=
              collect_files sv symbol biz_type product_id date_chunks [] in
            let log := starting :: LogSplit (length date_chunks) :: evs in
            match all_files with
            | [] => ((Ok (mkStats 0 0 0), w), log ++ [LogNoFiles])
            | _ :: _ =>
                let output_path :=
                  output_path_of output_dir biz_type product_id symbol in
                if decide (output_path ∈ blocked_dirs sv) then
                  ((Raise OSError, w), log)
                else
                  (download_data_parallel parallel_downloads all_files output_path
                     choices w,
                   log ++ [EvMkdirOutput output_path])
            end
        end
  | _, _ => ((Raise ValueError, w), [])
  end end end end end.

(** The list-files requests in a list of events. *)
Definition list_files_requests (events : list ApiEvent) : list ListFilesParams :=
  omap (fun e => match e with EvListFiles params => Some params | _ => None end)
       events.

(** The request that [download_data] sends for a window. *)
Definition request_for (sv : Services) (symbol biz_type product_id : string)
    (c : Z * Z) : ListFilesParams :=
  mkListFilesParams biz_type product_id symbol "daily" ""
    (strftime sv (fst c)) (strftime sv (snd c)).

(** The files that the exchange lists for a window; nothing when the
    listing raises. *)
Definition files_of_window (sv : Services) (symbol biz_type product_id : string)
    (c : string * string) : list FileInfo :=
  match fst (_get_download_files sv symbol (fst c) (snd c) biz_type product_id) with
  | AOk files => files
  | ARaise _ => []
  end.

(** A day number for each text of the form YYYY-MM-DD used in the samples,
    and sample services: the exchange lists the sample archive for the first
    week of July 2025, does not answer for the second week, and reports an
    error for every other query. *)
Definition sample_strptime (text : string) : option Z :=
  if decide (text = "2025-07-01") then Some 739433
  else if decide (text = "2025-07-07") then Some 739439
  else if decide (text = "2025-07-08") then Some 739440
  else if decide (text = "2025-07-10") then Some 739442
  else None.

Definition sample_strftime (d : Z) : string :=
  if decide (d = 739433) then "2025-07-01"
  else if decide (d = 739439) then "2025-07-07"
  else if decide (d = 739440) then "2025-07-08"
  else if decide (d = 739442) then "2025-07-10"
  else "".

Definition sample_services : Services :=
  mkServices sample_strptime sample_strftime
    (fun biz_type product_id =>
       Reply 200 (Json (Some 0) None (Result (Some ["BTCUSDT"; "ETHUSDT"]))))
    (fun params =>
       if decide (startDay params = "2025-07-01") then
         Reply 200 (Json (Some 0) None (Result (Some [sample_file])))
       else if decide (startDay params = "2025-07-08") then Unreachable
       else Reply 200 (Json (Some 10001) (Some "params error") NoResult))
    ∅.

(* ===================================================================== *)
(** * Properties of the date-range splitter                               *)
(* ===================================================================== *)

Lemma split_loop_step cur e acc :
  split_loop cur e acc =
  if decide (cur <= e) then
    match add_days cur 6 with
    | Raise x => Raise x
    | Ok t =>
        match add_days (Z.min t e) 1 with
        | Raise x => Raise x
        | Ok next => split_loop next e (acc ++ [(cur, Z.min t e)])
        end
    end
  else Ok acc.
Proof.
  funelim (split_loop cur e acc).
  all: try (rewrite decide_True by done).
  all: try (rewrite decide_False by done).
  all: repeat match goal with H : add_days _ _ = _ |- _ => progress rewrite H end.
  all: done.
Qed.

Lemma add_days_in_range d n :
  MINORDINAL <= d + n <= MAXORDINAL -> add_days d n = Ok (d + n).
Proof.
  intros [H1 H2]. unfold add_days.
  rewrite (proj2 (Z.leb_le _ _) H1), (proj2 (Z.leb_le _ _) H2). done.
Qed.

Lemma add_days_overflow d n :
  MAXORDINAL < d + n -> add_days d n = Raise OverflowError.
Proof.
  intros H. unfold add_days.
  rewrite (proj2 (Z.leb_gt _ _) H). by rewrite andb_false_r.
Qed.

Lemma window_days_empty a b : b < a -> window_days (a, b) = [].
Proof.
  intros H. unfold window_days. simpl.
  replace (Z.to_nat (b - a + 1)) with 0%nat by lia. done.
Qed.

Lemma map_seq_from_zero {A} (m : nat) : forall (f : nat -> A) (n : nat),
  map f (seq n m) = map (fun i => f (n + i)%nat) (seq 0 m).
Proof.
  induction m as [|m IH]; intros f n; simpl; [done|].
  f_equal; [f_equal; lia|].
  rewrite (IH f (S n)), (IH (fun i => f (n + i)%nat) 1%nat).
  apply map_ext. intros i. f_equal. lia.
Qed.

Lemma window_days_app a b c :
  a <= b + 1 -> b <= c ->
  window_days (a, b) ++ window_days (b + 1, c) = window_days (a, c).
Proof.
  intros H1 H2. unfold window_days. simpl.
  replace (Z.to_nat (c - a + 1))
    with (Z.to_nat (b - a + 1) + Z.to_nat (c - (b + 1) + 1))%nat by lia.
  rewrite seq_app, map_app.
  rewrite (map_seq_from_zero _ _ (0 + _)).
  apply (f_equal (app _)), map_ext. intros i. lia.
Qed.

Lemma range_fits_first cur e : cur <= e -> range_fits cur e -> cur + 6 <= MAXORDINAL.
Proof.
  intros Hle [_ H]. assert (0 <= (e - cur) / 7) by (apply Z.div_pos; lia). lia.
Qed.

Lemma range_fits_next cur e :
  cur + 6 < e -> (range_fits (cur + 7) e <-> range_fits cur e).
Proof.
  intros Hlt. unfold range_fits.
  replace (e - (cur + 7)) with (e - cur + (-1) * 7) by lia.
  rewrite Z.div_add by lia. split; intros [? ?]; split; lia.
Qed.

Lemma range_fits_last cur e :
  cur <= e -> e <= cur + 6 ->
  (range_fits cur e <-> e < MAXORDINAL /\ cur + 6 <= MAXORDINAL).
Proof.
  intros H1 H2. unfold range_fits.
  rewrite (Z.div_small (e - cur) 7) by lia. split; intros [? ?]; split; lia.
Qed.

(** The loop, exactly: started at [cur <= e] with [acc] already collected,
    it returns [acc] followed by a correct cutting of [cur .. e] when the
    range fits the calendar, and raises [OverflowError] when it does not. *)
Lemma split_loop_windows (n : nat) : forall cur e acc,
  Z.to_nat (e - cur + 1) = n ->
  MINORDINAL <= cur -> cur <= e -> e <= MAXORDINAL ->
  (range_fits cur e ->
   exists cs, split_loop cur e acc = Ok (acc ++ cs) /\ windows_ok cur e cs) /\
  (~ range_fits cur e -> split_loop cur e acc = Raise OverflowError).
Proof.
  induction (lt_wf n) as [n _ IH]. intros cur e acc Hn Hmin Hle Hmax.
  rewrite split_loop_step. rewrite decide_True by done.
  destruct (decide (cur + 6 <= MAXORDINAL)) as [H6|H6].
  2: { rewrite add_days_overflow by lia. split; [|done].
       intros Hfit%range_fits_first; [lia|done]. }
  rewrite add_days_in_range by (unfold MINORDINAL in *; lia).
  set (ce := Z.min (cur + 6) e).
  destruct (decide (ce + 1 <= MAXORDINAL)) as [H1|H1].
  2: { rewrite add_days_overflow by lia. split; [|done].
       intros [He _]. lia. }
  rewrite add_days_in_range by (unfold MINORDINAL in *; lia).
  destruct (decide (cur + 6 < e)) as [Hmore|Hlast].
  - (* a full window, and more days to come *)
    assert (Hce : ce = cur + 6) by lia.
    destruct (IH (Z.to_nat (e - (ce + 1) + 1)) ltac:(lia) (ce + 1) e
                 (acc ++ [(cur, ce)]) eq_refl ltac:(lia) ltac:(lia) Hmax)
      as [IHfit IHnot].
    replace (ce + 1) with (cur + 7) in * by lia.
    split.
    + intros Hfit%range_fits_next; [|done].
      destruct (IHfit Hfit) as (cs & Hrun & Hempty & Hends & Hall & Hcont & Hsort & Hdays).
      destruct (Hends ltac:(lia)) as [Hh Hl].
      exists ((cur, ce) :: cs). split.
      { rewrite Hrun. by rewrite <- app_assoc. }
      repeat split.
      * lia.
      * destruct cs as [|c cs]; [done|]. simpl in *. done.
      * constructor; [simpl; lia|].
        eapply Forall_impl; [exact Hall|]. simpl. intros c ?. lia.
      * destruct cs as [|c cs]; [done|]. split; [|done].
        simpl in Hh. injection Hh as Hh. simpl. lia.
      * constructor; [done|].
        eapply Forall_impl; [exact Hall|]. simpl. intros c ?. lia.
      * simpl. rewrite Hdays, Hce.
        replace (cur + 7) with (cur + 6 + 1) by lia.
        apply window_days_app; lia.
    + intros Hnot. apply IHnot. by rewrite range_fits_next.
  - (* the last window *)
    assert (Hce : ce = e) by lia.
    rewrite split_loop_step, decide_False by lia.
    split; [|intros Hnot; exfalso; apply Hnot, range_fits_last; lia].
    intros _. exists [(cur, ce)]. split; [done|]. rewrite Hce.
    repeat split; try done; try lia.
    + constructor; [simpl; lia|constructor].
    + constructor; [constructor|constructor].
    + simpl. by rewrite app_nil_r.
Qed.




(** July 2025 is cut into five windows, the last one of three days. *)
Example split_july_2025 :
  datetime 2025 7 1 = Ok 739433 /\ datetime 2025 7 31 = Ok 739463 /\
  _split_date_range 739433 739463 =
    Ok [(739433, 739439); (739440, 739446); (739447, 739453);
        (739454, 739460); (739461, 739463)].
Proof. repeat split; vm_compute; reflexivity. Qed.

(* ===================================================================== *)
(** * The attempt, flattened                                              *)
(* ===================================================================== *)

(** Each monadic block of [_download_file] is rewritten as an explicit case
    analysis on the world it starts from. *)

Lemma client_stream_spec url w :
  client_stream url w =
  match next_response url w with
  | NoResponse => (Raise RequestError, after_get url w)
  | HttpResponse status chunks ending => (Ok (status, chunks, ending), after_get url w)
  end.
Proof.
  unfold client_stream, next_response, after_get, set_net. simpl.
  destruct (net w !! url) as [[|[|status chunks ending] rest]|]; reflexivity.
Qed.

Lemma set_files_insert_insert p a b w :
  set_files <[p := a]> (set_files <[p := b]> w) = set_files <[p := a]> w.
Proof. unfold set_files. simpl. by rewrite insert_insert_eq. Qed.

Lemma write_chunks_spec p chunks : forall n w,
  write_chunks p chunks (set_files <[p := n]> w)
  = (Ok tt, set_files <[p := (n + body_bytes chunks)%N]> w).
Proof.
  induction chunks as [|c chunks IH]; intros n w; simpl.
  - unfold ret. by rewrite N.add_0_r.
  - unfold bind, write_chunk. simpl. rewrite lookup_insert_eq. simpl.
    rewrite set_files_insert_insert, IH. do 2 f_equal. f_equal. lia.
Qed.

Lemma stream_to_file_spec url p w :
  stream_to_file url p w =
  let w1 := after_get url w in
  match next_response url w with
  | NoResponse => (Raise RequestError, w1)
  | HttpResponse status chunks ending =>
      if is_success status then
        if decide (p ∈ fs_nowrite w) then (Raise OSError, w1)
        else
          let w2 := set_files <[p := body_bytes chunks]> w1 in
          match ending with
          | Complete => (Ok tt, w2)
          | Aborted e => (Raise e, w2)
          end
      else (Raise (HTTPStatusError status), w1)
  end.
Proof.
  unfold stream_to_file, bind. rewrite client_stream_spec.
  destruct (next_response url w) as [|status chunks ending]; [done|].
  unfold raise_for_status. destruct (is_success status); [|done].
  unfold ret, open_wb. simpl.
  destruct (decide (p ∈ fs_nowrite w)); [done|].
  rewrite write_chunks_spec. rewrite N.add_0_l.
  destruct ending; reflexivity.
Qed.

Lemma unlink_spec p w :
  unlink p w =
  match fs_files w !! p with
  | None => (Raise FileNotFoundError, w)
  | Some _ => if decide (p ∈ fs_nodelete w) then (Raise OSError, w)
              else (Ok tt, removed p w)
  end.
Proof. reflexivity. Qed.

Lemma attempt_handler_spec file_info p attempt e w :
  attempt_handler file_info p attempt e w =
  let w1 := add_event (LogAttemptFailed (attempt + 1) (fi_filename file_info) e) w in
  match fs_files w !! p with
  | None => (Ok false, backed_off attempt w1)
  | Some _ =>
      if decide (p ∈ fs_nodelete w) then (Raise OSError, w1)
      else (Ok false, backed_off attempt (removed p w1))
  end.
Proof.
  unfold attempt_handler, bind, emit, path_exists, when, unlink, backed_off, sleep, emit, ret.
  simpl. destruct (fs_files w !! p) as [n|] eqn:Hp; simpl; rewrite ?Hp.
  - destruct (decide (p ∈ fs_nodelete w)); [done|].
    destruct (attempt <? _)%nat; reflexivity.
  - destruct (attempt <? _)%nat; reflexivity.
Qed.

(** The body of the [try], by cases on the answer of the server, on the
    permissions of the target and on the size check. *)
Lemma attempt_body_spec file_info p w :
  attempt_body file_info p w =
  let url := fi_url file_info in
  let expected := expected_size_of file_info in
  let w1 := after_get url w in
  match next_response url w with
  | NoResponse => (Raise RequestError, w1)
  | HttpResponse status chunks ending =>
      if is_success status then
        if decide (p ∈ fs_nowrite w) then (Raise OSError, w1)
        else
          let actual := body_bytes chunks in
          let w2 := set_files <[p := actual]> w1 in
          match ending with
          | Aborted e => (Raise e, w2)
          | Complete =>
              if (0 <? expected) && negb (Z.of_N actual =? expected) then
                let w3 := add_event (LogSizeMismatch (fi_filename file_info) expected actual) w2 in
                if decide (p ∈ fs_nodelete w) then (Raise OSError, w3)
                else (Ok false, removed p w3)
              else
                (Ok true, add_event (LogDownloaded (fi_filename file_info) actual) w2)
          end
      else (Raise (HTTPStatusError status), w1)
  end.
Proof.
  unfold attempt_body, bind at 1. rewrite stream_to_file_spec. simpl.
  destruct (next_response (fi_url file_info) w) as [|status chunks ending]; [done|].
  destruct (is_success status); [|done].
  destruct (decide (p ∈ fs_nowrite w)); [done|].
  destruct ending as [|e]; [|done].
  unfold bind, stat_size. simpl. rewrite lookup_insert_eq.
  destruct ((0 <? _) && _).
  - unfold emit, unlink, ret. simpl. rewrite lookup_insert_eq.
    destruct (decide (p ∈ fs_nodelete w)); reflexivity.
  - reflexivity.
Qed.

Lemma already_complete_spec file_info p w :
  already_complete file_info p w = (Ok (file_complete file_info p w), w).
Proof.
  unfold already_complete, file_complete, bind, path_exists, stat_size, ret.
  destruct (fs_files w !! p) as [n|] eqn:Hp; simpl; [|done].
  destruct (0 <? expected_size_of file_info); simpl; [|done].
  by rewrite Hp.
Qed.

Lemma download_file_spec file_info output_dir w :
  _download_file file_info output_dir w =
  let p := path_join output_dir (fi_filename file_info) in
  if file_complete file_info p w then
    (Ok true, add_event (LogExists (fi_filename file_info)) w)
  else if decide (p ∈ fs_nomkdir w) then (Raise OSError, w)
  else retry_loop file_info p (seq 0 max_retries) (add_event (EvMkdir p) w).
Proof.
  unfold _download_file, bind at 1. rewrite already_complete_spec. simpl.
  destruct (file_complete _ _ _); [reflexivity|].
  unfold bind, mkdir_parent.
  destruct (decide (_ ∈ fs_nomkdir w)); reflexivity.
Qed.

(* ===================================================================== *)
(** * One attempt                                                         *)
(* ===================================================================== *)

(** Brings a concatenation of event lists into right-nested form. *)
Ltac app_norm := repeat (progress (simpl; rewrite <- ?app_assoc)).

Lemma network_attempts_app evs1 evs2 :
  network_attempts (evs1 ++ evs2) = (network_attempts evs1 + network_attempts evs2)%nat.
Proof. unfold network_attempts. by rewrite filter_app, length_app. Qed.

Lemma only_touches_refl p url w : only_touches p url w w.
Proof. repeat split; try done. exists []. by rewrite app_nil_r. Qed.

Lemma only_touches_trans p url w1 w2 w3 :
  only_touches p url w1 w2 -> only_touches p url w2 w3 -> only_touches p url w1 w3.
Proof.
  intros (A1 & A2 & A3 & A4 & A5 & e1 & A6) (B1 & B2 & B3 & B4 & B5 & e2 & B6).
  repeat split; try congruence.
  - intros q Hq. by rewrite B4, A4.
  - intros u Hu. by rewrite B5, A5.
  - exists (e1 ++ e2). by rewrite B6, A6, app_assoc.
Qed.

Lemma only_touches_add_event p url e w : only_touches p url w (add_event e w).
Proof. repeat split; try done. by exists [e]. Qed.

Lemma responses_after_get url w :
  responses url (after_get url w) = tail (responses url w).
Proof.
  unfold responses, after_get. simpl.
  destruct (net w !! url) as [[|r rest]|] eqn:Hq; simpl.
  - by rewrite Hq.
  - by rewrite lookup_insert_eq.
  - by rewrite Hq.
Qed.


Lemma net_after_get_other url u w :
  u <> url -> net (after_get url w) !! u = net w !! u.
Proof.
  intros Hu. unfold after_get. simpl.
  destruct (net w !! url) as [[|r rest]|]; try done.
  by rewrite lookup_insert_ne.
Qed.

Lemma after_get_fields url w :
  fs_files (after_get url w) = fs_files w /\
  fs_nomkdir (after_get url w) = fs_nomkdir w /\
  fs_nowrite (after_get url w) = fs_nowrite w /\
  fs_nodelete (after_get url w) = fs_nodelete w /\
  trace (after_get url w) = trace w ++ [EvGet url].
Proof. done. Qed.

Lemma only_touches_after_get p url w : only_touches p url w (after_get url w).
Proof.
  repeat split; try done.
  - intros u Hu. by apply net_after_get_other.
  - by exists [EvGet url].
Qed.

Lemma only_touches_set_files p url f w :
  (forall q, q <> p -> f (fs_files w) !! q = fs_files w !! q) ->
  only_touches p url w (set_files f w).
Proof. intros Hf. repeat split; try done. exists []. simpl. by rewrite app_nil_r. Qed.

Lemma only_touches_written p url n w :
  only_touches p url w (set_files <[p := n]> w).
Proof. apply only_touches_set_files. intros q Hq. by rewrite lookup_insert_ne. Qed.

Lemma only_touches_removed p url w : only_touches p url w (removed p w).
Proof.
  eapply only_touches_trans; [|apply only_touches_add_event].
  apply only_touches_set_files. intros q Hq. by rewrite lookup_delete_ne.
Qed.

Lemma only_touches_backed_off p url attempt w :
  only_touches p url w (backed_off attempt w).
Proof.
  unfold backed_off. destruct (_ <? _)%nat.
  - apply only_touches_add_event.
  - apply only_touches_refl.
Qed.

Create HintDb touches.

#[local] Hint Resolve only_touches_refl only_touches_add_event
  only_touches_after_get only_touches_written only_touches_removed
  only_touches_backed_off : touches.

Ltac touches :=
  repeat (first [ eassumption
                | apply only_touches_refl
                | eapply only_touches_trans; [|solve [eauto with touches]] ]).

Lemma responses_backed_off url attempt w :
  responses url (backed_off attempt w) = responses url w.
Proof. unfold backed_off. by destruct (_ <? _)%nat. Qed.

Lemma fs_files_backed_off attempt w :
  fs_files (backed_off attempt w) = fs_files w.
Proof. unfold backed_off. by destruct (_ <? _)%nat. Qed.

(** The events of a backoff: one sleep of [2 ^ attempt] seconds when
    attempts remain, nothing after the last attempt. *)
Lemma trace_backed_off attempt w :
  trace (backed_off attempt w) =
  trace w ++ (if (attempt <? max_retries - 1)%nat
              then [EvSleep (2 ^ Z.of_nat attempt)] else []).
Proof.
  unfold backed_off. destruct (_ <? _)%nat; simpl; [done|by rewrite app_nil_r].
Qed.

Lemma sleeps_app evs1 evs2 : sleeps (evs1 ++ evs2) = sleeps evs1 ++ sleeps evs2.
Proof. unfold sleeps. apply omap_app. Qed.

(** What one round of the retry loop does.  It sends exactly one GET and
    touches nothing but its own file and its own URL.  When the answer makes
    the attempt fail, the round either cleans up, leaves no file behind and
    lets the loop go on (after a backoff of [2 ^ attempt] seconds if the
    failure was an exception and attempts remain, at once if it was a size
    mismatch), or it dies on a file it may not delete.  Otherwise the round
    leaves the complete body on disk and ends the loop with [True]. *)
Lemma attempt_once_outcome file_info p attempt w r w1 :
  attempt_once file_info p attempt w = (r, w1) ->
  let url := fi_url file_info in
  let expected := expected_size_of file_info in
  only_touches p url w w1 /\
  responses url w1 = tail (responses url w) /\
  exists evs,
    trace w1 = trace w ++ EvGet url :: evs /\
    network_attempts evs = 0%nat /\
    if attempt_fails file_info p w (next_response url w) then
      (r = Ok false /\ fs_files w1 !! p = None /\
       sleeps evs =
         if size_mismatch file_info p w (next_response url w) then []
         else if (attempt <? max_retries - 1)%nat then [2 ^ Z.of_nat attempt]
         else [])
      \/ (r = Raise OSError /\ p ∈ fs_nodelete w /\ sleeps evs = [])
    else
      exists status chunks,
        next_response url w = HttpResponse status chunks Complete /\
        r = Ok true /\
        fs_files w1 !! p = Some (body_bytes chunks) /\
        (0 < expected -> Z.of_N (body_bytes chunks) = expected) /\
        evs = [LogDownloaded (fi_filename file_info) (body_bytes chunks)].
Proof.
  intros Hrun url expected. subst expected. revert Hrun.
  unfold attempt_once, try_except. rewrite attempt_body_spec. cbn zeta.
  fold url.
  destruct (next_response url w) as [|status chunks ending] eqn:Hr; simpl.
  2: destruct (is_success status) eqn:Hs; simpl.
  2: destruct (decide (p ∈ fs_nowrite w)) as [Hw|Hw];
     [rewrite (bool_decide_eq_true_2 _ Hw)|rewrite (bool_decide_eq_false_2 _ Hw)]; simpl.
  3: destruct ending as [|e]; simpl.
  3: destruct (0 <? expected_size_of file_info) eqn:Hpos;
     destruct (Z.of_N (body_bytes chunks) =? expected_size_of file_info) eqn:Hsz;
     simpl.
  all: destruct (decide (p ∈ fs_nodelete w)) as [Hd|Hd].
  all: rewrite ?attempt_handler_spec; cbn zeta; simpl.
  all: rewrite ?lookup_insert_eq.
  all: try (destruct (fs_files w !! p) as [n0|] eqn:Hp).
  all: rewrite ?decide_False by done; rewrite ?decide_True by done.
  all: intros [= <- <-].
  all: (split; [touches|]).
  all: rewrite ?responses_backed_off, ?trace_backed_off, ?fs_files_backed_off.
  all: (split; [exact (responses_after_get url w)|]).
  all: simpl; rewrite <- ?app_assoc; simpl.
  all: eexists; (split; [reflexivity|]).
  all: (split; [unfold network_attempts; by repeat case_match|]).
  all: rewrite ?lookup_delete_eq, ?lookup_insert_eq.
  all: try (right; split; [done|]; split; [done|]; reflexivity).
  all: try (left; split; [done|]; split; [done|];
            rewrite ?sleeps_app; simpl; by repeat case_match).
  all: exists status, chunks; repeat split; try done.
  all: intros Hlt; first [by apply Z.eqb_eq in Hsz | apply Z.ltb_ge in Hpos; lia].
Qed.

(* ===================================================================== *)
(** * The retry loop                                                      *)
(* ===================================================================== *)





Lemma retry_loop_cons file_info p attempt rest w :
  retry_loop file_info p (attempt :: rest) w =
  match attempt_once file_info p attempt w with
  | (Ok true, w1) => (Ok true, w1)
  | (Ok false, w1) => retry_loop file_info p rest w1
  | (Raise e, w1) => (Raise e, w1)
  end.
Proof.
  simpl. unfold bind. destruct (attempt_once _ _ _ _) as [[[|]|e] w1]; reflexivity.
Qed.

(** Whatever the server answers, the loop ends in one of three ways:
    [True] with the complete body on disk, [False] with no file on disk
    (provided at least one attempt was made), or an [OSError] that escaped
    because the target may not be deleted. *)
Lemma retry_loop_size_safe file_info p attempts : forall w r w',
  retry_loop file_info p attempts w = (r, w') ->
  only_touches p (fi_url file_info) w w' /\
  ((r = Ok true /\
    exists n, fs_files w' !! p = Some n /\
              (0 < expected_size_of file_info -> Z.of_N n = expected_size_of file_info))
   \/ (r = Ok false /\
       fs_files w' !! p = match attempts with
                          | [] => fs_files w !! p
                          | _ => None
                          end)
   \/ (r = Raise OSError /\ p ∈ fs_nodelete w)).
Proof.
  induction attempts as [|attempt rest IH]; intros w r w' Hrun.
  - simpl in Hrun. injection Hrun as <- <-.
    split; [apply only_touches_add_event|]. right. left. done.
  - rewrite retry_loop_cons in Hrun.
    destruct (attempt_once file_info p attempt w) as [r1 w1] eqn:H1.
    destruct (attempt_once_outcome _ _ _ _ _ _ H1)
      as (Ht & _ & evs & _ & _ & Hcase).
    destruct (attempt_fails _ _ _ _).
    + destruct Hcase as [(-> & Hgone & _)|(-> & Hin & _)].
      * destruct (IH _ _ _ Hrun) as [Ht' Hres].
        split; [by eapply only_touches_trans|].
        destruct Hres as [Hres|[[-> Hf]|[-> Hin]]]; [by left| |].
        -- right. left. split; [done|]. rewrite Hf. by destruct rest.
        -- right. right. split; [done|].
           destruct Ht as (_ & _ & <- & _). done.
      * injection Hrun as <- <-. split; [done|]. right. right. done.
    + destruct Hcase as (status & chunks & _ & -> & Hfile & Hsize & _).
      injection Hrun as <- <-. split; [done|]. left. split; [done|].
      by exists (body_bytes chunks).
Qed.




(* ===================================================================== *)
(** * The worker pool                                                     *)
(* ===================================================================== *)

(** Every schedule hands back each submitted task exactly once. *)
Lemma completion_order_perm {A} (fuel : nat) : forall (pending : list A) choices,
  length pending = fuel ->
  completion_order fuel pending choices ≡ₚ pending.
Proof.
  induction fuel as [|fuel IH]; intros pending choices Hlen.
  - destruct pending; [done|discriminate].
  - simpl.
    assert (Hk : (hd 0 choices `mod` length pending < length pending)%nat).
    { apply Nat.mod_upper_bound. lia. }
    destruct (lookup_lt_is_Some_2 _ _ Hk) as [x Hx]. rewrite Hx.
    etrans; [|symmetry; apply (delete_Permutation pending _ x Hx)].
    constructor. apply IH. rewrite length_delete by eauto. lia.
Qed.

Lemma as_completed_perm {A} (submitted : list A) choices :
  as_completed submitted choices ≡ₚ submitted.
Proof. by apply completion_order_perm. Qed.

Lemma run_tasks_cons file_info rest output_path w :
  run_tasks (file_info :: rest) output_path w =
  let r := fst (_download_file file_info output_path w) in
  let w1 := snd (_download_file file_info output_path w) in
  ((file_info, r) :: fst (run_tasks rest output_path w1),
   snd (run_tasks rest output_path w1)).
Proof.
  simpl. destruct (_download_file _ _ _) as [r w1]. simpl.
  by destruct (run_tasks _ _ _).
Qed.

(** One future per task, in the order in which the tasks were taken. *)
Lemma run_tasks_files tasks output_path : forall w,
  map fst (fst (run_tasks tasks output_path w)) = tasks.
Proof.
  induction tasks as [|file_info rest IH]; intros w; [done|].
  rewrite run_tasks_cons. simpl. by rewrite IH.
Qed.

Lemma count_succeeded_cons f futures :
  count_succeeded (f :: futures) =
  ((if succeeded f then 1 else 0) + count_succeeded futures)%nat.
Proof.
  unfold count_succeeded. rewrite filter_cons.
  destruct (succeeded f); by case_decide.
Qed.

Lemma count_failed_cons f futures :
  count_failed (f :: futures) =
  ((if succeeded f then 0 else 1) + count_failed futures)%nat.
Proof.
  unfold count_failed. rewrite filter_cons.
  destruct (succeeded f); by case_decide.
Qed.

(** Each future is counted on exactly one side. *)
Lemma count_partition futures :
  (count_succeeded futures + count_failed futures)%nat = length futures.
Proof.
  induction futures as [|f futures IH]; [done|].
  rewrite count_succeeded_cons, count_failed_cons. simpl.
  destruct (succeeded f); lia.
Qed.

(** The collecting loop never raises: it adds each future to one of the two
    counters, and its only effect is the log line for a task that raised. *)
Lemma process_completed_spec futures : forall successful failed w,
  exists w' evs,
    process_completed futures successful failed w
    = (Ok ((successful + count_succeeded futures)%nat,
           (failed + count_failed futures)%nat), w') /\
    fs_files w' = fs_files w /\ net w' = net w /\
    trace w' = trace w ++ evs /\ network_attempts evs = 0%nat.
Proof.
  induction futures as [|[file_info r] futures IH]; intros successful failed w.
  - exists w, []. simpl. unfold ret, count_succeeded, count_failed. simpl.
    rewrite !Nat.add_0_r, app_nil_r. done.
  - rewrite count_succeeded_cons, count_failed_cons.
    destruct r as [[|]|e]; simpl.
    + destruct (IH (S successful) failed w) as (w' & evs & -> & ? & ? & ? & ?).
      exists w', evs. repeat split; try done. do 3 f_equal; lia.
    + destruct (IH successful (S failed) w) as (w' & evs & -> & ? & ? & ? & ?).
      exists w', evs. repeat split; try done. do 3 f_equal; lia.
    + unfold bind, emit.
      destruct (IH successful (S failed)
                  (add_event (LogTaskFailed (fi_filename file_info) e) w))
        as (w' & evs & -> & ? & ? & Htr & ?).
      exists w', (LogTaskFailed (fi_filename file_info) e :: evs).
      repeat split; try done.
      * do 3 f_equal; lia.
      * rewrite Htr. by app_norm.
Qed.

(** The parallel part of [download_data], flattened: with a positive
    number of workers it returns the statistics of the futures of the pool;
    otherwise the executor refuses to start. *)
Lemma download_data_parallel_spec parallel_downloads all_files output_path choices w :
  let futures := pool_futures all_files output_path choices w in
  if decide (1 <= parallel_downloads) then
    exists w',
      download_data_parallel parallel_downloads all_files output_path choices w
      = (Ok (mkStats (length all_files) (count_succeeded futures) (count_failed futures)),
         w')
  else
    download_data_parallel parallel_downloads all_files output_path choices w
    = (Raise ValueError, add_event (LogStart (length all_files)) w).
Proof.
  intros futures. unfold download_data_parallel, bind at 1, emit.
  case_decide as Hpd.
  - unfold bind at 1. rewrite (proj2 (Z.leb_gt _ _)) by lia. unfold ret at 1.
    unfold bind at 1. subst futures. unfold pool_futures.
    destruct (run_tasks _ _ _) as [futures w1]. simpl.
    unfold bind at 1.
    destruct (process_completed_spec futures 0 0 w1) as (w2 & evs & -> & _).
    simpl. unfold bind, emit, ret. eauto.
  - unfold bind at 1. rewrite (proj2 (Z.leb_le _ _)) by lia. done.
Qed.

(* ===================================================================== *)
(** * Locality of a fetch                                                 *)
(* ===================================================================== *)

Lemma net_after_get_same url w :
  net (after_get url w) !! url = tail <$> (net w !! url).
Proof.
  unfold after_get. simpl.
  destruct (net w !! url) as [[|r rest]|] eqn:Hq; simpl.
  - done.
  - by rewrite lookup_insert_eq.
  - done.
Qed.

Lemma view_next_response p url w v :
  view p url w = view p url v -> next_response url w = next_response url v.
Proof. intros [= _ _ _ _ Hn]. unfold next_response. by rewrite Hn. Qed.

Lemma view_after_get p url w v :
  view p url w = view p url v -> view p url (after_get url w) = view p url (after_get url v).
Proof.
  intros [= Hf Hm Hw Hd Hn]. unfold view.
  rewrite !net_after_get_same, Hn. simpl. by rewrite Hf, Hm, Hw, Hd.
Qed.

Lemma view_add_event p url e w v :
  view p url w = view p url v -> view p url (add_event e w) = view p url (add_event e v).
Proof. done. Qed.

Lemma view_written p url n w v :
  view p url w = view p url v ->
  view p url (set_files <[p := n]> w) = view p url (set_files <[p := n]> v).
Proof.
  intros [= Hf Hm Hw Hd Hn]. unfold view. simpl.
  by rewrite !lookup_insert_eq, Hm, Hw, Hd, Hn.
Qed.

Lemma view_removed p url w v :
  view p url w = view p url v -> view p url (removed p w) = view p url (removed p v).
Proof.
  intros [= Hf Hm Hw Hd Hn]. unfold view. simpl.
  by rewrite !lookup_delete_eq, Hm, Hw, Hd, Hn.
Qed.

Lemma view_backed_off p url attempt w v :
  view p url w = view p url v ->
  view p url (backed_off attempt w) = view p url (backed_off attempt v).
Proof. intros H. unfold backed_off. by destruct (_ <? _)%nat. Qed.

Create HintDb views.

#[local] Hint Resolve view_after_get view_add_event view_written view_removed
  view_backed_off : views.

(** The outcome of an attempt and what it leaves behind depend only on the
    view of its own file and URL. *)
Lemma attempt_once_local file_info p attempt w v :
  let url := fi_url file_info in
  view p url w = view p url v ->
  fst (attempt_once file_info p attempt w) = fst (attempt_once file_info p attempt v) /\
  view p url (snd (attempt_once file_info p attempt w))
  = view p url (snd (attempt_once file_info p attempt v)).
Proof.
  intros url Hview.
  pose proof (view_next_response _ _ _ _ Hview) as Hr.
  pose proof Hview as [= Hf Hm Hw Hd Hn].
  unfold attempt_once, try_except. rewrite !attempt_body_spec. cbn zeta.
  fold url. rewrite Hr.
  destruct (next_response url v) as [|status chunks ending]; simpl.
  2: destruct (is_success status); simpl.
  2: rewrite !decide_bool_decide, Hw;
     destruct (bool_decide (p ∈ fs_nowrite v)); simpl.
  3: destruct ending as [|e]; simpl.
  3: destruct ((0 <? _) && _); simpl.
  3: rewrite ?decide_bool_decide, Hd;
     destruct (bool_decide (p ∈ fs_nodelete v)) eqn:Hdv; simpl.
  all: rewrite ?attempt_handler_spec; cbn zeta; simpl.
  all: rewrite ?lookup_insert_eq, ?Hf.
  all: try (destruct (fs_files v !! p)).
  all: rewrite ?decide_bool_decide, ?Hd, ?Hdv.
  all: try (destruct (bool_decide (p ∈ fs_nodelete v))).
  all: simpl; (split; [reflexivity|]).
  all: eauto 10 with views.
Qed.


Lemma file_complete_local file_info p url w v :
  view p url w = view p url v ->
  file_complete file_info p w = file_complete file_info p v.
Proof. intros [= Hf _ _ _ _]. unfold file_complete. by rewrite Hf. Qed.




(** Decides what a request found in an explicit list of events is. *)
Ltac get_in_events H :=
  repeat (apply elem_of_cons in H as [H|H];
          [first [discriminate H | by injection H]|]);
  by apply elem_of_nil in H.

Lemma events_since_app w w' evs :
  trace w' = trace w ++ evs -> events_since w w' = evs.
Proof. intros H. unfold events_since. rewrite H. apply drop_app_length. Qed.

(** The events of an attempt depend only on the view as well. *)
Lemma attempt_once_events file_info p attempt w v :
  view p (fi_url file_info) w = view p (fi_url file_info) v ->
  exists evs,
    trace (snd (attempt_once file_info p attempt w)) = trace w ++ evs /\
    trace (snd (attempt_once file_info p attempt v)) = trace v ++ evs /\
    (forall u, EvGet u ∈ evs -> u = fi_url file_info).
Proof.
  intros Hview. set (url := fi_url file_info) in *.
  pose proof (view_next_response _ _ _ _ Hview) as Hr.
  pose proof Hview as [= Hf Hm Hw Hd Hn].
  unfold attempt_once, try_except. rewrite !attempt_body_spec. cbn zeta.
  fold url. rewrite Hr.
  destruct (next_response url v) as [|status chunks ending]; simpl.
  2: destruct (is_success status); simpl.
  2: rewrite !decide_bool_decide, Hw;
     destruct (bool_decide (p ∈ fs_nowrite v)); simpl.
  3: destruct ending as [|e]; simpl.
  3: destruct ((0 <? _) && _); simpl.
  3: rewrite ?decide_bool_decide, Hd;
     destruct (bool_decide (p ∈ fs_nodelete v)) eqn:Hdv; simpl.
  all: rewrite ?attempt_handler_spec; cbn zeta; simpl.
  all: rewrite ?lookup_insert_eq, ?Hf.
  all: try (destruct (fs_files v !! p)).
  all: rewrite ?decide_bool_decide, ?Hd, ?Hdv.
  all: try (destruct (bool_decide (p ∈ fs_nodelete v))).
  all: cbn [fst snd]; rewrite ?trace_backed_off; simpl; rewrite <- ?app_assoc; simpl.
  all: eexists; (split; [reflexivity|]); (split; [reflexivity|]).
  all: intros u Hu; repeat case_match; get_in_events Hu.
Qed.

Lemma retry_loop_events file_info p attempts : forall w v,
  view p (fi_url file_info) w = view p (fi_url file_info) v ->
  exists evs,
    trace (snd (retry_loop file_info p attempts w)) = trace w ++ evs /\
    trace (snd (retry_loop file_info p attempts v)) = trace v ++ evs /\
    (forall u, EvGet u ∈ evs -> u = fi_url file_info).
Proof.
  induction attempts as [|attempt rest IH]; intros w v Hview.
  - simpl. eexists. split; [reflexivity|]. split; [reflexivity|].
    intros u Hu. get_in_events Hu.
  - rewrite !retry_loop_cons.
    destruct (attempt_once_local file_info p attempt w v Hview) as [Hr Hv].
    destruct (attempt_once_events file_info p attempt w v Hview)
      as (evs & Hw1 & Hv1 & Hown).
    destruct (attempt_once file_info p attempt w) as [r1 w1].
    destruct (attempt_once file_info p attempt v) as [r2 v1].
    simpl in Hr, Hv, Hw1, Hv1. subst r2.
    destruct r1 as [[|]|e]; simpl; [by exists evs| |by exists evs].
    destruct (IH w1 v1 Hv) as (evs' & Hw2 & Hv2 & Hown').
    exists (evs ++ evs'). rewrite Hw2, Hv2, Hw1, Hv1, <- !app_assoc.
    repeat split; try done. intros u [?|?]%elem_of_app; auto.
Qed.

(** The events of a fetch depend only on its view, and every request
    among them goes to the URL of the descriptor. *)
Lemma download_file_events file_info output_dir w v :
  view (target_of output_dir file_info) (fi_url file_info) w
  = view (target_of output_dir file_info) (fi_url file_info) v ->
  trace (snd (_download_file file_info output_dir w))
  = trace w ++ solo_events file_info output_dir v /\
  (forall u, EvGet u ∈ solo_events file_info output_dir v -> u = fi_url file_info).
Proof.
  intros Hview. unfold solo_events.
  rewrite !download_file_spec. cbn zeta.
  fold (target_of output_dir file_info).
  set (p := target_of output_dir file_info) in *.
  rewrite (file_complete_local _ _ _ _ _ Hview).
  destruct (file_complete file_info p v).
  { simpl. rewrite (events_since_app v _ [LogExists (fi_filename file_info)]) by done.
    split; [done|]. intros u Hu. get_in_events Hu. }
  rewrite !decide_bool_decide.
  pose proof Hview as [= _ -> _ _ _].
  destruct (bool_decide (p ∈ fs_nomkdir v)).
  { simpl. rewrite (events_since_app v v []) by by rewrite app_nil_r.
    split; [by rewrite app_nil_r|]. intros u Hu. get_in_events Hu. }
  destruct (retry_loop_events file_info p (seq 0 max_retries)
              (add_event (EvMkdir p) w) (add_event (EvMkdir p) v))
    as (evs & Hw1 & Hv1 & Hown); [by apply view_add_event|].
  rewrite (events_since_app v _ (EvMkdir p :: evs)).
  - split; [rewrite Hw1; by app_norm|].
    intros u [?|?]%elem_of_cons; [done|auto].
  - rewrite Hv1. by app_norm.
Qed.

(* ===================================================================== *)
(** * A batch of fetches                                                  *)
(* ===================================================================== *)

Lemma already_on_disk_complete file_info output_dir w :
  already_on_disk file_info output_dir w <->
  file_complete file_info (target_of output_dir file_info) w = true.
Proof.
  unfold already_on_disk, file_complete, target_of. split.
  - intros (n & -> & Hpos & Heq).
    apply andb_true_iff. split; [by apply Z.ltb_lt|by apply Z.eqb_eq].
  - destruct (fs_files w !! _) as [n|]; [|done].
    intros [Hpos Heq]%andb_true_iff. exists n.
    split; [done|]. split; [by apply Z.ltb_lt|by apply Z.eqb_eq].
Qed.




Lemma pool_futures_files all_files output_path choices w :
  map fst (pool_futures all_files output_path choices w) ≡ₚ all_files.
Proof.
  unfold pool_futures. rewrite run_tasks_files. apply as_completed_perm.
Qed.



Lemma pool_futures_length all_files output_path choices w :
  length (pool_futures all_files output_path choices w) = length all_files.
Proof.
  transitivity (length (map fst (pool_futures all_files output_path choices w))).
  - symmetry. apply length_map.
  - apply Permutation_length, pool_futures_files.
Qed.







(* ===================================================================== *)
(** * The single-file fetcher: skip, size check, retries                  *)
(* ===================================================================== *)

Lemma not_complete_not_on_disk file_info output_dir w :
  file_complete file_info (target_of output_dir file_info) w = false ->
  ~ already_on_disk file_info output_dir w.
Proof. intros H Hd%already_on_disk_complete. congruence. Qed.






Lemma attempt_passes file_info p w status chunks :
  is_success status = true ->
  p ∉ fs_nowrite w ->
  (0 < expected_size_of file_info ->
   Z.of_N (body_bytes chunks) = expected_size_of file_info) ->
  attempt_fails file_info p w (HttpResponse status chunks Complete) = false.
Proof.
  intros Hs Hw Hsz. unfold attempt_fails.
  rewrite Hs, (bool_decide_eq_false_2 _ Hw). simpl.
  destruct (0 <? _) eqn:Hpos; [|done]. simpl.
  apply Z.ltb_lt in Hpos. rewrite (Hsz Hpos), Z.eqb_refl. done.
Qed.



(** C6 is contradicted by the size-mismatch path: on a descriptor of known
    size 10 whose first answer is a complete body of 5 bytes and whose second
    answer is the whole file, the fetcher unlinks the short file and sends the
    second GET at once; no sleep separates the two attempts.  The sibling
    path, a first attempt that fails with an exception, does sleep
    [2 ^ 0 = 1] second before the second GET. *)
Theorem size_mismatch_retry_skips_backoff :
  trace (snd (_download_file sample_file sample_dir (serving [short_body; full_body])))
  = [EvMkdir sample_target; EvGet sample_url;
     LogSizeMismatch sample_name 10 5; EvUnlink sample_target;
     EvGet sample_url; LogDownloaded sample_name 10] /\
  trace (snd (_download_file sample_file sample_dir (serving [NoResponse; full_body])))
  = [EvMkdir sample_target; EvGet sample_url;
     LogAttemptFailed 1 sample_name RequestError; EvSleep 1;
     EvGet sample_url; LogDownloaded sample_name 10].
Proof. split; vm_compute; reflexivity. Qed.

(** The backoff in general: a failed attempt that the loop survives is
    followed by no sleep when it failed at the size check, and by one sleep
    of [2 ^ attempt] seconds when it failed by an exception and attempts
    remain. *)
Lemma attempt_backoff file_info p attempt w w1 :
  attempt_once file_info p attempt w = (Ok false, w1) ->
  exists evs,
    trace w1 = trace w ++ EvGet (fi_url file_info) :: evs /\
    sleeps evs = backoff_after file_info p w attempt
                   (next_response (fi_url file_info) w).
Proof.
  intros Hrun.
  destruct (attempt_once_outcome _ _ _ _ _ _ Hrun) as (_ & _ & evs & Htr & _ & Hcase).
  exists evs. split; [done|].
  destruct (attempt_fails _ _ _ _).
  - by destruct Hcase as [(_ & _ & Hsl)|(? & _)].
  - by destruct Hcase as (? & ? & _ & ? & _).
Qed.

(* ===================================================================== *)
(** * File-system failures                                                *)
(* ===================================================================== *)







(* ===================================================================== *)
(** * The report of a batch                                               *)
(* ===================================================================== *)

(** C1: when the parallel part of [download_data] returns, the statistics
    satisfy total = downloaded + failed, the total is the number of
    descriptors, the futures of the pool are the descriptors in some order
    (one future per descriptor), and each future is counted once: on the
    downloaded side if its result is [True], on the failed side otherwise. *)
Theorem report_counts_every_descriptor_once
    parallel_downloads all_files output_path choices w stats w' :
  download_data_parallel parallel_downloads all_files output_path choices w
  = (Ok stats, w') ->
  total_files stats = (downloaded stats + failed stats)%nat /\
  total_files stats = length all_files /\
  map fst (pool_futures all_files output_path choices w) ≡ₚ all_files /\
  downloaded stats = count_succeeded (pool_futures all_files output_path choices w) /\
  failed stats = count_failed (pool_futures all_files output_path choices w).
Proof.
  intros Hrun.
  pose proof (download_data_parallel_spec parallel_downloads all_files output_path
                choices w) as Hspec.
  cbn zeta in Hspec. case_decide.
  - destruct Hspec as [w2 Hspec]. rewrite Hspec in Hrun.
    injection Hrun as <- <-. cbn [total_files downloaded failed].
    rewrite count_partition, pool_futures_length.
    repeat split; try done. apply pool_futures_files.
  - congruence.
Qed.

Lemma report_counts_every_descriptor_once_witness :
  let stats := mkStats 2 1 1 in
  total_files stats = (downloaded stats + failed stats)%nat /\
  total_files stats = length [sample_file; other_file] /\
  map fst (pool_futures [sample_file; other_file] sample_dir [1%nat] world_second_blocked)
    ≡ₚ [sample_file; other_file] /\
  downloaded stats
  = count_succeeded (pool_futures [sample_file; other_file] sample_dir [1%nat]
                       world_second_blocked) /\
  failed stats
  = count_failed (pool_futures [sample_file; other_file] sample_dir [1%nat]
                    world_second_blocked).
Proof.
  apply (report_counts_every_descriptor_once 5 [sample_file; other_file] sample_dir
           [1%nat] world_second_blocked (mkStats 2 1 1)
           (snd (download_data_parallel 5 [sample_file; other_file] sample_dir
                   [1%nat] world_second_blocked))).
  vm_compute. reflexivity.
Defined.



(* ===================================================================== *)
(** * Descriptors without URL or file name                                *)
(* ===================================================================== *)




(* ===================================================================== *)
(** * More on the date-range splitter                                     *)
(* ===================================================================== *)

Lemma window_count_next cur e :
  cur + 6 < e -> window_count cur e = S (window_count (cur + 7) e).
Proof.
  intros Hlt. unfold window_count.
  replace (e - (cur + 7)) with (e - cur + (-1) * 7) by lia.
  rewrite Z.div_add by lia.
  assert (1 <= (e - cur) / 7) by (apply Z.div_le_lower_bound; lia). lia.
Qed.

Lemma window_count_last cur e :
  cur <= e -> e <= cur + 6 -> window_count cur e = 1%nat.
Proof.
  intros H1 H2. unfold window_count. by rewrite Z.div_small by lia.
Qed.

(** The loop in closed form: the windows it appends are [window_at] 0, 1,
    ... up to the window count. *)
Lemma split_loop_closed_form (n : nat) : forall cur e acc,
  Z.to_nat (e - cur + 1) = n ->
  MINORDINAL <= cur -> cur <= e -> e <= MAXORDINAL ->
  range_fits cur e ->
  split_loop cur e acc
  = Ok (acc ++ map (window_at cur e) (seq 0 (window_count cur e))).
Proof.
  induction (lt_wf n) as [n _ IH]. intros cur e acc Hn Hmin Hle Hmax Hfit.
  rewrite split_loop_step. rewrite decide_True by done.
  pose proof (range_fits_first _ _ Hle Hfit) as H6.
  rewrite add_days_in_range by (unfold MINORDINAL in *; lia).
  destruct Hfit as [He Hlast].
  rewrite add_days_in_range by (unfold MINORDINAL in *; lia).
  destruct (decide (cur + 6 < e)) as [Hmore|Hend].
  - rewrite (IH (Z.to_nat (e - (Z.min (cur + 6) e + 1) + 1)) ltac:(lia)
               (Z.min (cur + 6) e + 1) e _ eq_refl ltac:(lia) ltac:(lia) Hmax).
    2: { replace (Z.min (cur + 6) e + 1) with (cur + 7) by lia.
         apply range_fits_next; [done|]. by split. }
    replace (Z.min (cur + 6) e + 1) with (cur + 7) by lia.
    rewrite (window_count_next cur e Hmore). rewrite <- cons_seq. simpl map.
    rewrite <- app_assoc. simpl. do 3 f_equal.
    + unfold window_at. f_equal; lia.
    + rewrite <- fmap_S_seq. change (S <$> ?l) with (map S l). rewrite map_map.
      apply map_ext. intros i. unfold window_at. f_equal; [lia|f_equal; lia].
  - rewrite split_loop_step, decide_False by lia.
    rewrite (window_count_last cur e) by lia. simpl. do 3 f_equal.
    unfold window_at. f_equal; lia.
Qed.

Lemma split_range_formula (start_date end_date : Z) :
  valid_date start_date ->
  valid_date end_date ->
  start_date <= end_date ->
  range_fits start_date end_date ->
  _split_date_range start_date end_date
  = Ok (map (window_at start_date end_date)
            (seq 0 (window_count start_date end_date))).
Proof.
  intros [Hmin _] [_ Hmax] Hle Hfit. unfold _split_date_range.
  by rewrite (split_loop_closed_form _ start_date end_date [] eq_refl).
Qed.

(** X1: for valid dates start <= end whose range fits the calendar, the
    splitter returns exactly [(end - start) / 7 + 1] windows, and window
    number [i] runs from [start + 7 * i] to [start + 7 * i + 6], cut at
    end: every window but the last has seven days. *)
Theorem split_date_range_closed_form (start_date end_date : Z) :
  valid_date start_date ->
  valid_date end_date ->
  start_date <= end_date ->
  range_fits start_date end_date ->
  _split_date_range start_date end_date
  = Ok (map (window_at start_date end_date)
            (seq 0 (window_count start_date end_date))) /\
  (forall chunks, _split_date_range start_date end_date = Ok chunks ->
     length chunks = window_count start_date end_date /\
     forall i c, chunks !! i = Some c ->
       c = window_at start_date end_date i /\
       ((S i < length chunks)%nat -> snd c - fst c = 6)).
Proof.
  intros Hs He Hle Hfit.
  pose proof (split_range_formula _ _ Hs He Hle Hfit) as Hrun.
  split; [exact Hrun|].
  intros chunks Hchunks. rewrite Hrun in Hchunks. injection Hchunks as <-.
  rewrite length_map, length_seq. split; [done|].
  intros i c Hi.
  change (map ?f ?l) with (f <$> l) in Hi.
  rewrite list_lookup_fmap in Hi.
  destruct (seq 0 _ !! i) as [j|] eqn:Hj; [|done].
  apply lookup_seq in Hj as [-> Hlt]. simpl in Hi. injection Hi as <-.
  split; [done|]. intros Hnext. unfold window_at. simpl.
  assert (Z.of_nat i + 1 < (end_date - start_date) / 7 + 1).
  { unfold window_count in Hnext. lia. }
  assert (7 * ((end_date - start_date) / 7) <= end_date - start_date).
  { apply Z.mul_div_le. lia. }
  lia.
Qed.

Lemma split_date_range_closed_form_witness :
  _split_date_range 739433 739463
  = Ok (map (window_at 739433 739463) (seq 0 (window_count 739433 739463))) /\
  window_count 739433 739463 = 5%nat.
Proof.
  split; [|reflexivity].
  apply (split_date_range_closed_form 739433 739463).
  - unfold valid_date, MINORDINAL, MAXORDINAL. lia.
  - unfold valid_date, MINORDINAL, MAXORDINAL. lia.
  - lia.
  - unfold range_fits, MAXORDINAL. split; [lia|]. vm_compute. discriminate.
Defined.

Lemma range_fits_dec (start end_ : Z) :
  {range_fits start end_} + {~ range_fits start end_}.
Proof. unfold range_fits. apply and_dec; apply _. Defined.

(** X2: for valid dates the splitter returns the empty list exactly when
    the range is reversed (end before start); it then raises nothing, even
    next to the last day of the calendar. *)
Theorem split_date_range_empty_iff_reversed (start_date end_date : Z) :
  valid_date start_date ->
  valid_date end_date ->
  (_split_date_range start_date end_date = Ok [] <-> end_date < start_date).
Proof.
  intros [Hmin _] [_ Hmax]. split.
  - intros Hrun. destruct (decide (end_date < start_date)) as [|Hle]; [done|].
    exfalso. unfold _split_date_range in Hrun.
    destruct (split_loop_windows _ start_date end_date [] eq_refl Hmin ltac:(lia) Hmax)
      as [Hfit Hnot].
    destruct (range_fits_dec start_date end_date) as [H|H].
    + destruct (Hfit H) as (cs & Hcs & _ & Hends & _).
      rewrite Hcs in Hrun. injection Hrun as ->.
      destruct (Hends ltac:(lia)) as [Hh _]. discriminate.
    + rewrite (Hnot H) in Hrun. discriminate.
  - intros Hlt. unfold _split_date_range. rewrite split_loop_step.
    by rewrite decide_False by lia.
Qed.

Lemma split_date_range_empty_iff_reversed_witness :
  _split_date_range MAXORDINAL (MAXORDINAL - 1) = Ok [].
Proof.
  apply (split_date_range_empty_iff_reversed MAXORDINAL (MAXORDINAL - 1)).
  - unfold valid_date, MINORDINAL, MAXORDINAL. lia.
  - unfold valid_date, MINORDINAL, MAXORDINAL. lia.
  - lia.
Defined.

(* ===================================================================== *)
(** * More on the single-file fetcher                                     *)
(* ===================================================================== *)

Lemma scheduled_sleeps_cons attempt rest :
  scheduled_sleeps (attempt :: rest)
  = (if (attempt <? max_retries - 1)%nat then [2 ^ Z.of_nat attempt] else [])
    ++ scheduled_sleeps rest.
Proof. reflexivity. Qed.

(** What the loop costs, whatever the outcome: at most one request per
    attempt index, sleeps taken from the schedule in order; and [False] comes
    only after every attempt has been made. *)
Lemma retry_loop_budget file_info p attempts : forall w r w',
  retry_loop file_info p attempts w = (r, w') ->
  exists evs,
    trace w' = trace w ++ evs /\
    (network_attempts evs <= length attempts)%nat /\
    sublist (sleeps evs) (scheduled_sleeps attempts) /\
    (r = Ok false ->
     network_attempts evs = length attempts /\
     last evs = Some (LogGiveUp (fi_filename file_info) max_retries)).
Proof.
  induction attempts as [|attempt rest IH]; intros w r w' Hrun.
  - simpl in Hrun. injection Hrun as <- <-.
    exists [LogGiveUp (fi_filename file_info) max_retries]. by repeat split.
  - rewrite retry_loop_cons in Hrun.
    destruct (attempt_once file_info p attempt w) as [r1 w1] eqn:H1.
    destruct (attempt_once_outcome _ _ _ _ _ _ H1)
      as (_ & _ & evs & Htr & Hn & Hcase).
    rewrite scheduled_sleeps_cons.
    assert (Hone : forall evs',
              network_attempts (EvGet (fi_url file_info) :: evs ++ evs')
              = S (network_attempts evs')).
    { intros evs'.
      change (EvGet (fi_url file_info) :: evs ++ evs')
        with ([EvGet (fi_url file_info)] ++ evs ++ evs').
      by rewrite !network_attempts_app, Hn. }
    assert (Hsl : forall evs',
              sleeps (EvGet (fi_url file_info) :: evs ++ evs')
              = sleeps evs ++ sleeps evs').
    { intros evs'.
      change (EvGet (fi_url file_info) :: evs ++ evs')
        with ([EvGet (fi_url file_info)] ++ evs ++ evs').
      by rewrite !sleeps_app. }
    destruct (attempt_fails _ _ _ _).
    + destruct Hcase as [(-> & _ & Hs)|(-> & _ & Hs)].
      * destruct (IH _ _ _ Hrun) as (evs' & Htr' & Hn' & Hs' & Hfalse).
        exists (EvGet (fi_url file_info) :: evs ++ evs').
        rewrite Hone, Hsl. split; [rewrite Htr', Htr; by app_norm|].
        split; [simpl; lia|]. split.
        -- apply sublist_app; [|done]. rewrite Hs.
           destruct (size_mismatch _ _ _ _); [apply sublist_nil_l|done].
        -- intros ->. destruct (Hfalse eq_refl) as [Hk Hlast].
           split; [simpl; lia|].
           destruct evs' as [|e evs'] using rev_ind; [done|].
           rewrite last_snoc in Hlast. injection Hlast as ->.
           by rewrite app_comm_cons, app_assoc, last_snoc.
      * injection Hrun as <- <-.
        exists (EvGet (fi_url file_info) :: evs ++ []).
        rewrite Hone, Hsl, Hs. split; [by rewrite Htr, app_nil_r|].
        split; [unfold network_attempts; simpl; lia|].
        split; [apply sublist_nil_l|done].
    + destruct Hcase as (status & chunks & _ & -> & _ & _ & ->).
      injection Hrun as <- <-.
      exists (EvGet (fi_url file_info)
              :: [LogDownloaded (fi_filename file_info) (body_bytes chunks)] ++ []).
      rewrite Hone, Hsl. split; [rewrite Htr; by app_norm|].
      split; [unfold network_attempts; simpl; lia|].
      split; [apply sublist_nil_l|done].
Qed.

(** X3: whatever the disk and the server do, one call of [_download_file]
    sends at most three requests, all of them to the URL of its descriptor,
    and sleeps at most once for 1 second and once for 2 seconds, in this
    order: never more than 3 seconds in all, and never after the last
    attempt. *)
Theorem fetch_stays_within_budget file_info output_dir w :
  exists evs,
    trace (snd (_download_file file_info output_dir w)) = trace w ++ evs /\
    (network_attempts evs <= 3)%nat /\
    sublist (sleeps evs) [1; 2] /\
    (forall u, EvGet u ∈ evs -> u = fi_url file_info).
Proof.
  destruct (download_file_events file_info output_dir w w eq_refl) as [Htr Hown].
  exists (solo_events file_info output_dir w). split; [done|].
  cut ((network_attempts (solo_events file_info output_dir w) <= 3)%nat /\
       sublist (sleeps (solo_events file_info output_dir w)) [1; 2]).
  { intros [? ?]. done. }
  revert Htr. generalize (solo_events file_info output_dir w). intros evs.
  rewrite download_file_spec. cbn zeta.
  set (p := path_join output_dir (fi_filename file_info)).
  destruct (file_complete file_info p w).
  - simpl. intros <-%app_inv_head.
    split; [unfold network_attempts; simpl; lia|apply sublist_nil_l].
  - case_decide.
    + simpl. rewrite <- (app_nil_r (trace w)) at 1. intros <-%app_inv_head.
      split; [unfold network_attempts; simpl; lia|apply sublist_nil_l].
    + destruct (retry_loop _ _ _ _) as [r w'] eqn:Hrun.
      destruct (retry_loop_budget _ _ _ _ _ _ Hrun) as (evs' & Hevs & Hn & Hs & _).
      simpl. rewrite Hevs. simpl. rewrite <- app_assoc. intros <-%app_inv_head.
      rewrite network_attempts_app, sleeps_app. simpl in Hn.
      change (network_attempts [EvMkdir p]) with 0%nat. split; [lia|exact Hs].
Qed.

Lemma fetch_stays_within_budget_witness :
  exists evs,
    trace (snd (_download_file sample_file sample_dir (serving [NoResponse; short_body])))
    = trace (serving [NoResponse; short_body]) ++ evs /\
    (network_attempts evs <= 3)%nat /\
    sublist (sleeps evs) [1; 2] /\
    (forall u, EvGet u ∈ evs -> u = sample_url).
Proof.
  apply (fetch_stays_within_budget sample_file sample_dir
           (serving [NoResponse; short_body])).
Defined.

(** X4: what the result of [_download_file] tells its caller.  [True]: the
    target is on disk, with the expected size when one is known.  [False]:
    exactly three requests were sent, the last log line says that the fetcher
    gives up, and the target is absent, even if a file was there before.  An
    exception: it is an [OSError], raised either because the directory could
    not be created, and then nothing has happened, or because the target
    could not be deleted. *)
Theorem download_file_result_meaning file_info output_dir w r w' :
  _download_file file_info output_dir w = (r, w') ->
  match r with
  | Ok true =>
      exists n, fs_files w' !! target_of output_dir file_info = Some n /\
                (0 < expected_size_of file_info ->
                 Z.of_N n = expected_size_of file_info)
  | Ok false =>
      fs_files w' !! target_of output_dir file_info = None /\
      exists evs,
        trace w' = trace w ++ evs /\
        network_attempts evs = max_retries /\
        last evs = Some (LogGiveUp (fi_filename file_info) max_retries)
  | Raise e =>
      e = OSError /\
      ((target_of output_dir file_info ∈ fs_nomkdir w /\ w' = w)
       \/ target_of output_dir file_info ∈ fs_nodelete w)
  end.
Proof.
  rewrite download_file_spec. cbn zeta. fold (target_of output_dir file_info).
  set (p := target_of output_dir file_info).
  destruct (file_complete file_info p w) eqn:Hc.
  - intros [= <- <-]. apply already_on_disk_complete in Hc as (n & Hn & _ & Hsz).
    exists n. split; [exact Hn|done].
  - case_decide as Hmk; [intros [= <- <-]; split; [done|by left]|].
    intros Hrun.
    destruct (retry_loop_budget _ _ _ _ _ _ Hrun) as (evs & Htr & _ & _ & Hfalse).
    apply retry_loop_size_safe in Hrun
      as [_ [(-> & n & Hn & Hsz)|[[-> Hf]|[-> Hin]]]].
    + by exists n.
    + split; [exact Hf|]. destruct (Hfalse eq_refl) as [Hn Hlast].
      exists (EvMkdir p :: evs). split; [rewrite Htr; by app_norm|].
      split.
      * change (EvMkdir p :: evs) with ([EvMkdir p] ++ evs).
        by rewrite network_attempts_app, Hn.
      * destruct evs as [|e evs]; [done|]. exact Hlast.
    + split; [done|]. by right.
Qed.

Lemma download_file_result_meaning_witness :
  fs_files (snd (_download_file sample_file sample_dir world_read_only))
    !! sample_target = None /\
  exists evs,
    trace (snd (_download_file sample_file sample_dir world_read_only))
    = trace world_read_only ++ evs /\
    network_attempts evs = max_retries /\
    last evs = Some (LogGiveUp sample_name max_retries).
Proof.
  apply (download_file_result_meaning sample_file sample_dir world_read_only
           (Ok false)
           (snd (_download_file sample_file sample_dir world_read_only))).
  vm_compute. reflexivity.
Defined.

(** X5: a descriptor of unknown size (no ['size'], or a size that is not
    positive) is never skipped and never checked: whatever is on disk, if the
    directory can be created, the target can be written and the first answer
    is a complete 2xx body, this body replaces the target after a single
    request and the result is [True]. *)
Theorem unknown_size_is_always_fetched file_info output_dir w status chunks :
  expected_size_of file_info <= 0 ->
  target_of output_dir file_info ∉ fs_nomkdir w ->
  target_of output_dir file_info ∉ fs_nowrite w ->
  next_response (fi_url file_info) w = HttpResponse status chunks Complete ->
  is_success status = true ->
  exists w',
    _download_file file_info output_dir w = (Ok true, w') /\
    fs_files w' !! target_of output_dir file_info = Some (body_bytes chunks) /\
    trace w' = trace w ++
      [EvMkdir (target_of output_dir file_info); EvGet (fi_url file_info);
       LogDownloaded (fi_filename file_info) (body_bytes chunks)].
Proof.
  intros Hsize Hmk Hw Hr Hs.
  rewrite download_file_spec. cbn zeta. fold (target_of output_dir file_info).
  set (p := target_of output_dir file_info) in *.
  assert (Hc : file_complete file_info p w = false).
  { unfold file_complete. destruct (fs_files w !! p); [|done].
    by rewrite (proj2 (Z.ltb_ge _ _) Hsize). }
  rewrite Hc. rewrite decide_False by done.
  simpl seq. rewrite retry_loop_cons.
  destruct (attempt_once _ _ _ _) as [r1 w1] eqn:H1.
  destruct (attempt_once_outcome _ _ _ _ _ _ H1) as (_ & _ & evs & Htr & _ & Hcase).
  change (next_response (fi_url file_info) (add_event (EvMkdir p) w))
    with (next_response (fi_url file_info) w) in Hcase.
  rewrite Hr in Hcase.
  rewrite (attempt_passes file_info p (add_event (EvMkdir p) w) status chunks) in Hcase
    by (done || lia).
  destruct Hcase as (status' & chunks' & [= <- <-] & -> & Hfile & _ & ->).
  exists w1. split; [done|]. split; [done|]. rewrite Htr. by app_norm.
Qed.

Lemma unknown_size_is_always_fetched_witness :
  exists w',
    _download_file nameless_file "out"
      (mkWorld {[ "out" := 7%N ]} ∅ ∅ ∅ {[ sample_url := [full_body] ]} [])
    = (Ok true, w') /\
    fs_files w' !! "out" = Some 10%N.
Proof.
  destruct (unknown_size_is_always_fetched nameless_file "out"
              (mkWorld {[ "out" := 7%N ]} ∅ ∅ ∅ {[ sample_url := [full_body] ]} [])
              200 [8; 2]%N)
    as (w' & Hrun & Hfile & _).
  - vm_compute. discriminate.
  - apply not_elem_of_empty.
  - apply not_elem_of_empty.
  - vm_compute. reflexivity.
  - reflexivity.
  - exists w'. split; [exact Hrun|exact Hfile].
Defined.



(* ===================================================================== *)
(** * More on the worker pool                                             *)
(* ===================================================================== *)















(* ===================================================================== *)
(** * The whole of [download_data], and [fetch_symbols]                   *)
(* ===================================================================== *)

Lemma list_files_requests_app evs1 evs2 :
  list_files_requests (evs1 ++ evs2)
  = list_files_requests evs1 ++ list_files_requests evs2.
Proof. unfold list_files_requests. apply omap_app. Qed.

(** One request per call, and no other. *)
Lemma get_download_files_request sv symbol start_date end_date biz_type product_id :
  list_files_requests
    (snd (_get_download_files sv symbol start_date end_date biz_type product_id))
  = [mkListFilesParams biz_type product_id symbol "daily" "" start_date end_date].
Proof.
  unfold _get_download_files. cbn zeta.
  destruct (list_files sv _) as [|status [| |ret_code ret_msg result]]; [done|..].
  - by destruct (is_success status).
  - by destruct (is_success status).
  - destruct (is_success status); [|done]. by case_decide.
Qed.

(** The listing loop: the files of the windows whose listing succeeds, in
    the order of the windows, after the files collected before; one request
    per window, in the same order. *)
Lemma collect_files_spec sv symbol biz_type product_id date_chunks : forall all_files,
  fst (collect_files sv symbol biz_type product_id date_chunks all_files)
  = all_files ++ flat_map (files_of_window sv symbol biz_type product_id) date_chunks /\
  list_files_requests
    (snd (collect_files sv symbol biz_type product_id date_chunks all_files))
  = map (fun c => mkListFilesParams biz_type product_id symbol "daily" ""
                    (fst c) (snd c))
        date_chunks.
Proof.
  induction date_chunks as [|[chunk_start chunk_end] rest IH]; intros all_files.
  - simpl. by rewrite app_nil_r.
  - cbn [collect_files flat_map map fst snd].
    pose proof (get_download_files_request sv symbol chunk_start chunk_end
                  biz_type product_id) as Hreq.
    unfold files_of_window at 1. cbn [fst snd].
    destruct (_get_download_files sv symbol chunk_start chunk_end biz_type product_id)
      as [[files|e] evs]; cbn [fst snd] in *.
    + destruct (IH (all_files ++ files)) as [Hf Hr].
      destruct (collect_files _ _ _ _ rest _) as [all_files' evs'].
      cbn [fst snd] in *. split; [by rewrite Hf, <- app_assoc|].
      change (evs ++ ?e :: evs') with (evs ++ [e] ++ evs').
      by rewrite !list_files_requests_app, Hreq, Hr.
    + destruct (IH all_files) as [Hf Hr].
      destruct (collect_files _ _ _ _ rest _) as [all_files' evs'].
      cbn [fst snd] in *. split; [by rewrite Hf|].
      change (evs ++ ?e :: evs') with (evs ++ [e] ++ evs').
      by rewrite !list_files_requests_app, Hreq, Hr.
Qed.

(** The arguments that the validators of [download_data] accept. *)
Lemma validators_accept sv biz_type product_id start_date end_date start end_ :
  biz_type ∈ ["spot"; "contract"] ->
  product_id ∈ ["trade"; "orderbook"] ->
  strptime sv start_date = Some start ->
  strptime sv end_date = Some end_ ->
  _validate_biz_type biz_type = Ok tt /\
  _validate_product_id product_id = Ok tt /\
  _validate_date_format sv start_date = Ok tt /\
  _validate_date_format sv end_date = Ok tt.
Proof.
  intros Hb Hp Hs He.
  unfold _validate_biz_type, _validate_product_id, _validate_date_format.
  by rewrite (bool_decide_eq_true_2 _ Hb), (bool_decide_eq_true_2 _ Hp), Hs, He.
Qed.

(** [download_data] once its arguments are accepted and the range is
    split, in terms of the files listed for the windows. *)
Lemma download_data_listed sv parallel_downloads symbol start_date end_date
    biz_type product_id output_dir choices w start end_ chunks :
  biz_type ∈ ["spot"; "contract"] ->
  product_id ∈ ["trade"; "orderbook"] ->
  strptime sv start_date = Some start ->
  strptime sv end_date = Some end_ ->
  start <= end_ ->
  _split_date_range start end_ = Ok chunks ->
  let date_chunks := map (fun c => (strftime sv (fst c), strftime sv (snd c))) chunks in
  let listed := flat_map (files_of_window sv symbol biz_type product_id) date_chunks in
  let output_path := output_path_of output_dir biz_type product_id symbol in
  fst (download_data sv parallel_downloads symbol start_date end_date biz_type
         product_id output_dir choices w)
  = (if decide (listed = []) then (Ok (mkStats 0 0 0), w)
     else if decide (output_path ∈ blocked_dirs sv) then (Raise OSError, w)
     else download_data_parallel parallel_downloads listed output_path choices w) /\
  list_files_requests
    (snd (download_data sv parallel_downloads symbol start_date end_date biz_type
            product_id output_dir choices w))
  = map (request_for sv symbol biz_type product_id) chunks.
Proof.
  intros Hb Hp Hs He Hle Hsplit date_chunks listed output_path.
  destruct (validators_accept sv _ _ _ _ _ _ Hb Hp Hs He) as (V1 & V2 & V3 & V4).
  unfold download_data. rewrite V1, V2, V3, V4, Hs, He.
  rewrite (proj2 (Z.ltb_ge _ _)) by lia.
  unfold split_date_range_text. rewrite Hs, He, Hsplit. cbn zeta.
  fold date_chunks.
  destruct (collect_files_spec sv symbol biz_type product_id date_chunks [])
    as [Hf Hr].
  destruct (collect_files _ _ _ _ date_chunks []) as [all_files evs].
  cbn [fst snd] in Hf, Hr. simpl in Hf. fold listed in Hf. subst all_files.
  fold output_path.
  assert (Hreq : forall tail_,
            list_files_requests tail_ = [] ->
            list_files_requests
              (LogStarting symbol biz_type product_id start_date end_date
               :: LogSplit (length date_chunks) :: evs ++ tail_)
            = map (request_for sv symbol biz_type product_id) chunks).
  { intros tail_ Ht.
    change (?a :: ?b :: evs ++ tail_) with ([a; b] ++ evs ++ tail_).
    rewrite !list_files_requests_app, Hr, Ht, app_nil_r. simpl.
    unfold date_chunks. rewrite map_map. by apply map_ext. }
  clearbody listed. destruct listed as [|file_info listed'].
  - rewrite decide_True by done. split; [done|]. cbn [snd]. by apply Hreq.
  - destruct (decide (file_info :: listed' = [])) as [|_]; [discriminate|].
    destruct (decide (output_path ∈ blocked_dirs sv)).
    + split; [done|]. cbn [snd]. rewrite <- (app_nil_r evs). by apply Hreq.
    + split; [done|]. cbn [snd]. by apply Hreq.
Qed.

(** X10: [download_data] checks its arguments before it does anything: a
    market type other than spot or contract, a data type other than trade or
    orderbook, a date that does not parse, or an end date before the start
    date make it raise [ValueError] without any request, log line or change
    of the world. *)
Theorem download_data_rejects_bad_arguments sv parallel_downloads symbol
    start_date end_date biz_type product_id output_dir choices w :
  biz_type ∉ ["spot"; "contract"]
  \/ product_id ∉ ["trade"; "orderbook"]
  \/ strptime sv start_date = None
  \/ strptime sv end_date = None
  \/ (exists start end_,
        strptime sv start_date = Some start /\
        strptime sv end_date = Some end_ /\ end_ < start) ->
  download_data sv parallel_downloads symbol start_date end_date biz_type
    product_id output_dir choices w
  = ((Raise ValueError, w), []).
Proof.
  intros Hbad. unfold download_data, _validate_biz_type, _validate_product_id,
    _validate_date_format.
  destruct (bool_decide (biz_type ∈ _)) eqn:Hb; [|done].
  destruct (bool_decide (product_id ∈ _)) eqn:Hp; [|done].
  apply bool_decide_eq_true in Hb, Hp.
  destruct (strptime sv start_date) as [start|] eqn:Hs; [|done].
  destruct (strptime sv end_date) as [end_|] eqn:He; [|done].
  destruct Hbad as [?|[?|[?|[?|(s' & e' & [= <-] & [= <-] & Hlt)]]]]; try done.
  by rewrite (proj2 (Z.ltb_lt _ _) Hlt).
Qed.

Lemma download_data_rejects_bad_arguments_witness :
  download_data sample_services 5 "BTCUSDT" "2025-07-08" "2025-07-01" "spot" "trade"
    "./data" [] empty_world
  = ((Raise ValueError, empty_world), []) /\
  download_data sample_services 5 "BTCUSDT" "2025-07-01" "2025-07-08" "futures" "trade"
    "./data" [] empty_world
  = ((Raise ValueError, empty_world), []).
Proof.
  split.
  - apply download_data_rejects_bad_arguments.
    do 4 right. exists 739440, 739433.
    split; [reflexivity|]. split; [reflexivity|lia].
  - apply download_data_rejects_bad_arguments.
    left. apply (bool_decide_unpack _). vm_compute. exact I.
Defined.

(** X11: with accepted arguments and dates whose range fits the calendar,
    [download_data] sends exactly one list-files request per window, that is
    [(end - start) / 7 + 1] requests, in chronological order; request number
    [i] asks for the days from [start + 7 * i] to [start + 7 * i + 6], cut at
    end: no request spans more than seven days. *)
Theorem download_data_asks_once_per_window sv parallel_downloads symbol
    start_date end_date biz_type product_id output_dir choices w start end_ :
  biz_type ∈ ["spot"; "contract"] ->
  product_id ∈ ["trade"; "orderbook"] ->
  strptime sv start_date = Some start ->
  strptime sv end_date = Some end_ ->
  valid_date start ->
  valid_date end_ ->
  start <= end_ ->
  range_fits start end_ ->
  list_files_requests
    (snd (download_data sv parallel_downloads symbol start_date end_date biz_type
            product_id output_dir choices w))
  = map (fun i => request_for sv symbol biz_type product_id (window_at start end_ i))
        (seq 0 (window_count start end_)).
Proof.
  intros Hb Hp Hs He Hvs Hve Hle Hfit.
  destruct (download_data_listed sv parallel_downloads symbol start_date end_date
              biz_type product_id output_dir choices w start end_ _
              Hb Hp Hs He Hle (split_range_formula _ _ Hvs Hve Hle Hfit))
    as [_ Hreq].
  rewrite Hreq. by rewrite map_map.
Qed.

Lemma download_data_asks_once_per_window_witness :
  list_files_requests
    (snd (download_data sample_services 5 "BTCUSDT" "2025-07-01" "2025-07-10" "spot"
            "trade" "./data" [] (serving [full_body])))
  = map (fun i => request_for sample_services "BTCUSDT" "spot" "trade"
                    (window_at 739433 739442 i))
        (seq 0 (window_count 739433 739442)).
Proof.
  apply (download_data_asks_once_per_window sample_services 5 "BTCUSDT"
           "2025-07-01" "2025-07-10" "spot" "trade" "./data" []
           (serving [full_body]) 739433 739442).
  - apply (bool_decide_unpack _). vm_compute. exact I.
  - apply (bool_decide_unpack _). vm_compute. exact I.
  - reflexivity.
  - reflexivity.
  - unfold valid_date, MINORDINAL, MAXORDINAL. lia.
  - unfold valid_date, MINORDINAL, MAXORDINAL. lia.
  - lia.
  - unfold range_fits, MAXORDINAL. split; [lia|]. vm_compute. discriminate.
Defined.

(** X12: with accepted arguments, [download_data] is its pool run over the
    files that the exchange lists for the windows of the range, in the order
    of the windows, a window whose listing raises counting for nothing: when
    some file is listed and the output directory can be created, the result
    and the world are those of the pool over these files; and whenever
    [download_data] returns its statistics, the total is the number of files
    listed and equals downloaded plus failed. *)
Theorem download_data_reports_listed_files sv parallel_downloads symbol
    start_date end_date biz_type product_id output_dir choices w start end_ chunks :
  biz_type ∈ ["spot"; "contract"] ->
  product_id ∈ ["trade"; "orderbook"] ->
  strptime sv start_date = Some start ->
  strptime sv end_date = Some end_ ->
  start <= end_ ->
  _split_date_range start end_ = Ok chunks ->
  let listed :=
    flat_map (files_of_window sv symbol biz_type product_id)
      (map (fun c => (strftime sv (fst c), strftime sv (snd c))) chunks) in
  let output_path := output_path_of output_dir biz_type product_id symbol in
  (listed <> [] ->
   output_path ∉ blocked_dirs sv ->
   fst (download_data sv parallel_downloads symbol start_date end_date biz_type
          product_id output_dir choices w)
   = download_data_parallel parallel_downloads listed output_path choices w) /\
  (forall stats w',
     fst (download_data sv parallel_downloads symbol start_date end_date biz_type
            product_id output_dir choices w) = (Ok stats, w') ->
     total_files stats = length listed /\
     total_files stats = (downloaded stats + failed stats)%nat).
Proof.
  intros Hb Hp Hs He Hle Hsplit listed output_path.
  destruct (download_data_listed sv parallel_downloads symbol start_date end_date
              biz_type product_id output_dir choices w start end_ chunks
              Hb Hp Hs He Hle Hsplit) as [Hrun _].
  cbn zeta in Hrun. fold listed in Hrun. fold output_path in Hrun.
  rewrite Hrun. clear Hrun. split.
  - intros Hne Hfree. by rewrite !decide_False by done.
  - intros stats w'. case_decide as Hl.
    + intros [= <- <-]. by rewrite Hl.
    + case_decide; [done|]. intros Hpool.
      pose proof (download_data_parallel_spec parallel_downloads listed output_path
                    choices w) as Hspec.
      cbn zeta in Hspec. case_decide; [|congruence].
      destruct Hspec as [w2 Hspec]. rewrite Hspec in Hpool.
      injection Hpool as <- <-. cbn [total_files downloaded failed].
      split; [done|]. by rewrite count_partition, pool_futures_length.
Qed.

Lemma download_data_reports_listed_files_witness :
  fst (download_data sample_services 5 "BTCUSDT" "2025-07-01" "2025-07-10" "spot"
         "trade" "./data" [] (serving [full_body]))
  = download_data_parallel 5 [sample_file] "./data/spot/trade/BTCUSDT" []
      (serving [full_body]).
Proof.
  destruct (download_data_reports_listed_files sample_services 5 "BTCUSDT"
              "2025-07-01" "2025-07-10" "spot" "trade" "./data" []
              (serving [full_body]) 739433 739442
              [(739433, 739439); (739440, 739442)]) as [Hrun _].
  - apply (bool_decide_unpack _). vm_compute. exact I.
  - apply (bool_decide_unpack _). vm_compute. exact I.
  - reflexivity.
  - reflexivity.
  - lia.
  - vm_compute. reflexivity.
  - apply Hrun.
    + vm_compute. discriminate.
    + apply not_elem_of_empty.
Defined.



(** X14: when files are listed but the run cannot start, [download_data]
    raises before any file is requested: [OSError] when the output directory
    cannot be created, the world being untouched; and otherwise [ValueError]
    when the number of parallel downloads is below 1, only the start line of
    the pool having been logged. *)
Theorem download_data_fails_before_any_download sv parallel_downloads symbol
    start_date end_date biz_type product_id output_dir choices w start end_ chunks :
  biz_type ∈ ["spot"; "contract"] ->
  product_id ∈ ["trade"; "orderbook"] ->
  strptime sv start_date = Some start ->
  strptime sv end_date = Some end_ ->
  start <= end_ ->
  _split_date_range start end_ = Ok chunks ->
  let listed :=
    flat_map (files_of_window sv symbol biz_type product_id)
      (map (fun c => (strftime sv (fst c), strftime sv (snd c))) chunks) in
  let output_path := output_path_of output_dir biz_type product_id symbol in
  listed <> [] ->
  (output_path ∈ blocked_dirs sv ->
   fst (download_data sv parallel_downloads symbol start_date end_date biz_type
          product_id output_dir choices w)
   = (Raise OSError, w)) /\
  (output_path ∉ blocked_dirs sv ->
   parallel_downloads <= 0 ->
   fst (download_data sv parallel_downloads symbol start_date end_date biz_type
          product_id output_dir choices w)
   = (Raise ValueError, add_event (LogStart (length listed)) w)).
Proof.
  intros Hb Hp Hs He Hle Hsplit listed output_path Hne.
  destruct (download_data_listed sv parallel_downloads symbol start_date end_date
              biz_type product_id output_dir choices w start end_ chunks
              Hb Hp Hs He Hle Hsplit) as [Hrun _].
  cbn zeta in Hrun. fold listed in Hrun. fold output_path in Hrun.
  rewrite Hrun. clear Hrun. rewrite (decide_False (P := listed = [])) by done.
  split.
  - intros Hblocked. by rewrite decide_True.
  - intros Hfree Hpd. rewrite decide_False by done.
    pose proof (download_data_parallel_spec parallel_downloads listed output_path
                  choices w) as Hspec.
    cbn zeta in Hspec. by rewrite decide_False in Hspec by lia.
Qed.

Lemma download_data_fails_before_any_download_witness :
  fst (download_data sample_services 0 "BTCUSDT" "2025-07-01" "2025-07-07" "spot"
         "trade" "./data" [] (serving [full_body]))
  = (Raise ValueError, add_event (LogStart 1) (serving [full_body])).
Proof.
  destruct (download_data_fails_before_any_download sample_services 0 "BTCUSDT"
              "2025-07-01" "2025-07-07" "spot" "trade" "./data" []
              (serving [full_body]) 739433 739439 [(739433, 739439)])
    as [_ Hpool].
  - apply (bool_decide_unpack _). vm_compute. exact I.
  - apply (bool_decide_unpack _). vm_compute. exact I.
  - reflexivity.
  - reflexivity.
  - lia.
  - vm_compute. reflexivity.
  - vm_compute. discriminate.
  - apply Hpool; [apply not_elem_of_empty|lia].
Defined.

(** X15: [fetch_symbols] validates before it asks: with a market type other
    than spot or contract, or a data type other than trade or orderbook, it
    raises without sending a request.  Otherwise it sends exactly one
    list-options request, and it returns a list of symbols exactly when the
    answer has a 2xx status and its body is a JSON object whose ['ret_code']
    is 0 and whose ['result'] is absent or an object: the list found there, or
    the empty list when there is none.  Every other answer raises, and only
    an unreachable exchange is logged as a failure. *)
Theorem fetch_symbols_outcome sv biz_type product_id :
  (biz_type ∉ ["spot"; "contract"] \/ product_id ∉ ["trade"; "orderbook"] ->
   fetch_symbols sv biz_type product_id = (ARaise ApiValueError, [])) /\
  (biz_type ∈ ["spot"; "contract"] ->
   product_id ∈ ["trade"; "orderbook"] ->
   (exists log,
      snd (fetch_symbols sv biz_type product_id)
      = EvListOptions biz_type product_id :: log /\
      (forall biz_type' product_id', EvListOptions biz_type' product_id' ∉ log) /\
      (LogFetchSymbolsFailed ∈ log <->
       list_options sv biz_type product_id = Unreachable)) /\
   (forall symbols,
      fst (fetch_symbols sv biz_type product_id) = AOk symbols <->
      exists status ret_msg result,
        list_options sv biz_type product_id
        = Reply status (Json (Some 0) ret_msg result) /\
        is_success status = true /\
        result_entries result = AOk symbols)).
Proof.
  unfold fetch_symbols, _validate_biz_type, _validate_product_id. split.
  - intros [Hb|Hp].
    + by rewrite (bool_decide_eq_false_2 _ Hb).
    + rewrite (bool_decide_eq_false_2 _ Hp). by destruct (bool_decide _).
  - intros Hb Hp.
    rewrite (bool_decide_eq_true_2 _ Hb), (bool_decide_eq_true_2 _ Hp). cbn zeta.
    destruct (list_options sv biz_type product_id)
      as [|status [| |ret_code ret_msg result]].
    + split.
      * eexists. split; [reflexivity|]. split.
        -- intros b p Hin. get_in_events Hin.
        -- split; [done|]. intros _. apply list_elem_of_here.
      * intros symbols. split; [done|]. by intros (? & ? & ? & ? & _).
    + destruct (is_success status) eqn:Hs; (split;
        [eexists; split; [reflexivity|]; split;
           [intros b p Hin; by apply elem_of_nil in Hin
           |split; [by intros Hin%elem_of_nil|done]]
        |intros symbols; split; [done|]; by intros (? & ? & ? & ? & _)]).
    + destruct (is_success status) eqn:Hs; (split;
        [eexists; split; [reflexivity|]; split;
           [intros b p Hin; by apply elem_of_nil in Hin
           |split; [by intros Hin%elem_of_nil|done]]
        |intros symbols; split; [done|]; by intros (? & ? & ? & ? & _)]).
    + destruct (is_success status) eqn:Hs.
      * destruct (decide (ret_code = Some 0)) as [->|Hrc].
        -- destruct (result_entries result) as [found|e] eqn:Hres.
           ++ split.
              ** eexists. split; [reflexivity|]. split.
                 --- intros b p Hin. get_in_events Hin.
                 --- split; [|done]. intros Hin. get_in_events Hin.
              ** intros symbols. simpl. split.
                 --- intros [= <-]. by exists status, ret_msg, result.
                 --- intros (? & ? & ? & [= <- <- <-] & _ & Hres').
                     congruence.
           ++ split.
              ** eexists. split; [reflexivity|]. split.
                 --- intros b p Hin. by apply elem_of_nil in Hin.
                 --- split; [by intros Hin%elem_of_nil|done].
              ** intros symbols. split; [done|].
                 intros (? & ? & ? & [= <- <- <-] & _ & Hres'). congruence.
        -- split.
           ++ eexists. split; [reflexivity|]. split.
              ** intros b p Hin. by apply elem_of_nil in Hin.
              ** split; [by intros Hin%elem_of_nil|done].
           ++ intros symbols. split; [done|].
              intros (? & ? & ? & [= <- Hrc' <- <-] & _). by rewrite Hrc' in Hrc.
      * split.
        -- eexists. split; [reflexivity|]. split.
           ++ intros b p Hin. by apply elem_of_nil in Hin.
           ++ split; [by intros Hin%elem_of_nil|done].
        -- intros symbols. split; [done|].
           intros (? & ? & ? & [= <- _ _ _] & Hs' & _). congruence.
Qed.

Lemma fetch_symbols_outcome_witness :
  fetch_symbols sample_services "spot" "candles" = (ARaise ApiValueError, []) /\
  fst (fetch_symbols sample_services "spot" "trade") = AOk ["BTCUSDT"; "ETHUSDT"].
Proof.
  destruct (fetch_symbols_outcome sample_services "spot" "candles") as [Hbad _].
  destruct (fetch_symbols_outcome sample_services "spot" "trade") as [_ Hgood].
  split.
  - apply Hbad. right. apply (bool_decide_unpack _). vm_compute. exact I.
  - apply Hgood.
    + apply (bool_decide_unpack _). vm_compute. exact I.
    + apply (bool_decide_unpack _). vm_compute. exact I.
    + exists 200, None, (Result (Some ["BTCUSDT"; "ETHUSDT"])). repeat split.
Defined.

(** X16: with accepted arguments and valid dates start <= end whose range
    does not fit the calendar (the end is the last day, or the last window
    starts within six days of it), [download_data] raises the
    [OverflowError] of the splitter: it has logged that it starts, and has
    sent no request and changed nothing. *)
Theorem download_data_overflows_next_to_last_day sv parallel_downloads symbol
    start_date end_date biz_type product_id output_dir choices w start end_ :
  biz_type ∈ ["spot"; "contract"] ->
  product_id ∈ ["trade"; "orderbook"] ->
  strptime sv start_date = Some start ->
  strptime sv end_date = Some end_ ->
  valid_date start ->
  valid_date end_ ->
  start <= end_ ->
  ~ range_fits start end_ ->
  download_data sv parallel_downloads symbol start_date end_date biz_type
    product_id output_dir choices w
  = ((Raise OverflowError, w),
     [LogStarting symbol biz_type product_id start_date end_date]).
Proof.
  intros Hb Hp Hs He [Hmin _] [_ Hmax] Hle Hnot.
  destruct (validators_accept sv _ _ _ _ _ _ Hb Hp Hs He) as (V1 & V2 & V3 & V4).
  unfold download_data. rewrite V1, V2, V3, V4, Hs, He.
  rewrite (proj2 (Z.ltb_ge _ _)) by lia.
  unfold split_date_range_text, _split_date_range. rewrite Hs, He.
  destruct (split_loop_windows _ start end_ [] eq_refl Hmin Hle Hmax) as [_ Hraise].
  by rewrite (Hraise Hnot).
Qed.

Lemma download_data_overflows_next_to_last_day_witness :
  let sv := mkServices (fun _ => Some MAXORDINAL) (fun _ => "9999-12-31")
              (fun _ _ => Unreachable) (fun _ => Unreachable) ∅ in
  download_data sv 5 "BTCUSDT" "9999-12-31" "9999-12-31" "spot" "trade" "./data" []
    empty_world
  = ((Raise OverflowError, empty_world),
     [LogStarting "BTCUSDT" "spot" "trade" "9999-12-31" "9999-12-31"]).
Proof.
  apply (download_data_overflows_next_to_last_day
           (mkServices (fun _ => Some MAXORDINAL) (fun _ => "9999-12-31")
              (fun _ _ => Unreachable) (fun _ => Unreachable) ∅)
           5 "BTCUSDT" "9999-12-31" "9999-12-31" "spot" "trade" "./data" []
           empty_world MAXORDINAL MAXORDINAL).
  - apply (bool_decide_unpack _). vm_compute. exact I.
  - apply (bool_decide_unpack _). vm_compute. exact I.
  - reflexivity.
  - reflexivity.
  - unfold valid_date, MINORDINAL, MAXORDINAL. lia.
  - unfold valid_date, MINORDINAL, MAXORDINAL. lia.
  - lia.
  - unfold range_fits, MAXORDINAL. lia.
Defined.
